(** * linmath.hpp: a shallow embedding of the vector, matrix and quaternion
    kernel and of its portable math primitives.

    Scalars of type [float] are IEEE-754 binary32 values, modelled with the
    executable specification of [SpecFloat] at precision 24 and maximal
    exponent 128 (round to nearest, ties to even).  Templates over the element
    type [T] become definitions over a [Scalar] type class; fixed-size arrays
    become lists; [for] loops become folds over the index range; the two
    [while] loops of the trigonometric range reduction take fuel.

    Every arithmetic operation rounds on its own, as the C++ expressions are
    written: the model is the program compiled without floating-point
    contraction.  What a build that fuses [a*b + c] into one rounding changes
    is shown on [quat_mul] by a second, fused evaluation of its expressions.
    [SpecFloat] has one NaN where the hardware has many (sign and payload), so
    where the bits of a result depend on the order or the signs of the
    operands the statement is made for inputs without NaN: every NaN that
    arises from them is the default one an invalid operation generates. *)

From Stdlib Require Import ZArith List Bool Lia QArith Qabs.
From Stdlib Require Import Floats.SpecFloat.
Import ListNotations.

Set Implicit Arguments.
Local Open Scope Z_scope.

(** ** IEEE-754 binary32 *)

Module F32.

Definition prec : Z := 24.
Definition emax : Z := 128.

Definition float := spec_float.

Definition add : float -> float -> float := SFadd prec emax.
Definition sub : float -> float -> float := SFsub prec emax.
Definition mul : float -> float -> float := SFmul prec emax.
Definition div : float -> float -> float := SFdiv prec emax.
Definition neg : float -> float := SFopp.

Definition eqb : float -> float -> bool := SFeqb.
Definition ltb : float -> float -> bool := SFltb.
Definition leb : float -> float -> bool := SFleb.
Definition gtb (x y : float) : bool := SFltb y x.
Definition geb (x y : float) : bool := SFleb y x.

Definition pzero : float := S754_zero false.

(** An integer constant such as [2.f] or [T(1)]. *)
Definition of_Z (z : Z) : float := binary_normalize prec emax z 0 false.

(** Nearest value of the quotient of two positive integers, at any format:
    the division core is exact on integer mantissas of any width. *)
Definition round_quot (p e : Z) (s : bool) (n d : positive) : spec_float :=
  let '(q, e', l) := SFdiv_core_binary p e (Zpos n) 0 (Zpos d) 0 in
  binary_round_aux p e s q e' l.

(** The decimal literal [m * 10^k] rounded to the format ([p], [e]). *)
Definition round_dec (p e : Z) (m k : Z) : spec_float :=
  match m with
  | Z0 => S754_zero false
  | Zpos n =>
      match k with
      | Zneg j => round_quot p e false n (Pos.pow 10 j)
      | _ => binary_normalize p e (m * 10 ^ k) 0 false
      end
  | Zneg n =>
      match k with
      | Zneg j => round_quot p e true n (Pos.pow 10 j)
      | _ => binary_normalize p e (m * 10 ^ k) 0 false
      end
  end.

(** A literal with the [f] suffix: [of_dec 7 (-1)] is [0.7f]. *)
Definition of_dec (m k : Z) : float := round_dec prec emax m k.

(** A [double] literal converted to [float], as in [T(1e-6)]: rounded to
    binary64 first and to binary32 next. *)
Definition of_double (x : spec_float) : float :=
  match x with
  | S754_finite s m e => binary_round prec emax s m e
  | _ => x
  end.

Definition of_dec_double (m k : Z) : float := of_double (round_dec 53 1024 m k).

Definition is_finite (x : float) : bool :=
  match x with
  | S754_zero _ | S754_finite _ _ _ => true
  | _ => false
  end.

Definition is_nan (x : float) : bool :=
  match x with S754_nan => true | _ => false end.

(** The object representation: sign bit, 8 exponent bits, 23 fraction bits. *)
Definition sign_bit (s : bool) : Z := if s then 2 ^ 31 else 0.

Definition to_bits (x : float) : Z :=
  match x with
  | S754_zero s => sign_bit s
  | S754_infinity s => sign_bit s + 255 * 2 ^ 23
  | S754_nan => 255 * 2 ^ 23 + 2 ^ 22
  | S754_finite s m e =>
      if 2 ^ 23 <=? Zpos m
      then sign_bit s + (e + 150) * 2 ^ 23 + (Zpos m - 2 ^ 23)
      else sign_bit s + Zpos m
  end.

Definition of_bits (b : Z) : float :=
  let s := Z.testbit b 31 in
  let ex := Z.land (Z.shiftr b 23) 255 in
  let fr := Z.land b (2 ^ 23 - 1) in
  if ex =? 0 then
    match fr with
    | Zpos m => S754_finite s m (-149)
    | _ => S754_zero s
    end
  else if ex =? 255 then
    (if fr =? 0 then S754_infinity s else S754_nan)
  else
    match fr + 2 ^ 23 with
    | Zpos m => S754_finite s m (ex - 150)
    | _ => S754_nan
    end.

(** The exact rational value of a finite float (0 otherwise). *)
Definition to_Q (x : float) : Q :=
  match x with
  | S754_finite s m e =>
      let v := match e with
               | Zneg k => Zpos m # Pos.pow 2 k
               | _ => (Zpos m * 2 ^ e) # 1
               end in
      if s then Qopp v else v
  | _ => 0%Q
  end.

End F32.

(** ** Control flow of the source *)

(** [for (int i = 0; i < n; ++i) body] over a loop state [St]. *)
Definition for_ {St : Type} (n : nat) (body : nat -> St -> St) (s : St) : St :=
  fold_left (fun acc i => body i acc) (seq 0 n) s.

(** [while (cond) body]: every test of the condition costs one unit of fuel,
    [None] when the fuel runs out before the condition turns false. *)
Fixpoint while_ {St : Type} (cond : St -> bool) (body : St -> St)
    (fuel : nat) (s : St) : option St :=
  match fuel with
  | O => None
  | S fuel' => if cond s then while_ cond body fuel' (body s) else Some s
  end.

Definition obind {A B : Type} (x : option A) (k : A -> option B) : option B :=
  match x with
  | Some a => k a
  | None => None
  end.

Notation "x <- e ;; k" := (obind e (fun x => k))
  (at level 61, e at next level, right associativity).

(** ** libc_integration.hpp: portable math primitives

    Floating expressions are evaluated in binary32, one rounding per
    operation, without fused contraction. *)

Module Libc.
Import F32.

Definition PI : float := of_dec 314159265359 (-11).
Definition PI_HALF : float := of_dec 157079632679 (-11).
Definition PI_DOUBLE : float := of_dec 628318530718 (-11).

(** The two range-reduction loops of [sinf]. *)
Definition sinf_reduce_down : nat -> float -> option float :=
  while_ (fun X => geb X PI_DOUBLE) (fun X => sub X PI_DOUBLE).

Definition sinf_reduce_up : nat -> float -> option float :=
  while_ (fun X => ltb X pzero) (fun X => add X PI_DOUBLE).

Definition sinf (fuel : nat) (X : float) : option float :=
  let x2 := mul X X in
  X <- sinf_reduce_down fuel X ;;
  X <- sinf_reduce_up fuel X ;;
  let '(X, flip) := if gtb X PI then (sub X PI, true) else (X, false) in
  let X := if gtb X PI_HALF then sub PI X else X in
  let result :=
    mul X (add (sub (of_Z 1) (div x2 (of_Z 6)))
               (div (mul x2 x2) (of_Z 120))) in
  Some (if flip then neg result else result).

Definition cosf (fuel : nat) (X : float) : option float :=
  sinf fuel (add X PI_HALF).

(** The two range-reduction loops of [tanf]. *)
Definition tanf_reduce_down : nat -> float -> option float :=
  while_ (fun X => gtb X PI) (fun X => sub X PI_DOUBLE).

Definition tanf_reduce_up : nat -> float -> option float :=
  while_ (fun X => ltb X (neg PI)) (fun X => add X PI_DOUBLE).

Definition tanf (fuel : nat) (X : float) : option float :=
  let x2 := mul X X in
  X <- tanf_reduce_down fuel X ;;
  X <- tanf_reduce_up fuel X ;;
  Some (add X
          (mul (mul X x2)
             (add (div (of_Z 1) (of_Z 3))
                (mul x2 (add (div (of_Z 2) (of_Z 15))
                           (mul x2 (div (of_Z 17) (of_Z 315)))))))).

(** [sqrtf]: the guard, then the magic-number estimate of the inverse root
    on the bit pattern (unsigned 32-bit subtraction) and one Newton step. *)
Definition sqrtf (X : float) : float :=
  if leb X pzero then pzero
  else
    let x_half := mul (of_dec 5 (-1)) X in
    let i := to_bits X in
    let i := (1597463007 - Z.shiftr i 1) mod 2 ^ 32 in
    let y := of_bits i in
    let y := mul y (sub (of_dec 15 (-1)) (mul (mul x_half y) y)) in
    mul X y.

End Libc.

(** ** The element type of the templates *)

Class Scalar (T : Type) : Type := {
  s_zero : T;                         (* T{} *)
  s_of_int : Z -> T;                  (* T(n) *)
  s_of_double : Z -> Z -> T;          (* T(m e k), a double literal *)
  s_of_float : F32.float -> T;        (* conversion of a float result *)
  s_to_float : T -> F32.float;        (* conversion of a float argument *)
  s_add : T -> T -> T;
  s_sub : T -> T -> T;
  s_mul : T -> T -> T;
  s_div : T -> T -> T;
  s_neg : T -> T;
  s_eqb : T -> T -> bool;
  s_ltb : T -> T -> bool
}.

#[export] Instance float_scalar : Scalar F32.float := {|
  s_zero := F32.pzero;
  s_of_int := F32.of_Z;
  s_of_double := F32.of_dec_double;
  s_of_float := fun x => x;
  s_to_float := fun x => x;
  s_add := F32.add;
  s_sub := F32.sub;
  s_mul := F32.mul;
  s_div := F32.div;
  s_neg := F32.neg;
  s_eqb := F32.eqb;
  s_ltb := F32.ltb
|}.

Declare Scope scalar_scope.
Delimit Scope scalar_scope with S.
Infix "+" := s_add : scalar_scope.
Infix "-" := s_sub : scalar_scope.
Infix "*" := s_mul : scalar_scope.
Infix "/" := s_div : scalar_scope.
Notation "- x" := (s_neg x) : scalar_scope.

(** ** vec.hpp: generic vectors *)

Section Vec.
Context {T : Type} `{Scalar T}.
Local Open Scope scalar_scope.

(** [vec<T,N>]: the array [v] of [N] elements. *)
Definition vec : Type := list T.

(** [vec<T,N>{}]: value-initialised storage. *)
Definition vec_init (N : nat) : vec := repeat s_zero N.

(** [V[i]] as the loops use it, with [i] below the size. *)
Definition vget (V : vec) (i : nat) : T := nth i V s_zero.

(** [V[i]] as an access to the array: [None] outside of it. *)
Definition vec_at (V : vec) (i : nat) : option T := nth_error V i.

(** [V[i] = x]. *)
Fixpoint vset (V : vec) (i : nat) (x : T) : vec :=
  match V, i with
  | [], _ => []
  | _ :: V', O => x :: V'
  | a :: V', S i' => a :: vset V' i' x
  end.

Definition vec_add (N : nat) (A B : vec) : vec :=
  for_ N (fun i res => vset res i (vget A i + vget B i)) (vec_init N).

Definition vec_sub (N : nat) (A B : vec) : vec :=
  for_ N (fun i res => vset res i (vget A i - vget B i)) (vec_init N).

Definition vec_scale (N : nat) (V : vec) (S : T) : vec :=
  for_ N (fun i res => vset res i (vget V i * S)) (vec_init N).

Definition vec_dot (N : nat) (A B : vec) : T :=
  for_ N (fun i res => res + vget A i * vget B i) s_zero.

Definition vec_len (N : nat) (V : vec) : T :=
  s_of_float (Libc.sqrtf (s_to_float (vec_dot N V V))).

Definition vec_norm (N : nat) (V : vec) : vec :=
  let LEN := vec_len N V in
  if s_eqb LEN (s_of_int 0) then vec_init N
  else vec_scale N V (s_of_int 1 / LEN).

(** Unary [operator-]. *)
Definition vec_neg (N : nat) (V : vec) : vec :=
  for_ N (fun i res => vset res i (- vget V i)) (vec_init N).

(** [operator==]: the first differing component answers [false]. *)
Definition vec_eqb (N : nat) (A B : vec) : bool :=
  forallb (fun i => s_eqb (vget A i) (vget B i)) (seq 0 N).

Definition vec3_cross (A B : vec) : vec :=
  [ vget A 1 * vget B 2 - vget A 2 * vget B 1;
    vget A 2 * vget B 0 - vget A 0 * vget B 2;
    vget A 0 * vget B 1 - vget A 1 * vget B 0 ].

End Vec.

(** ** mat.hpp: column-major matrices *)

Section Mat.
Context {T : Type} `{Scalar T}.
Local Open Scope scalar_scope.

(** [mat<T,C,R>]: the array [col] of [C] columns, each a [vec<T,R>]. *)
Definition mat : Type := list (@vec T).

Definition mat_init (C R : nat) : mat := repeat (vec_init R) C.

(** [M[c]]. *)
Definition mcol (M : mat) (c : nat) : vec := nth c M [].

(** [M[c][r]]. *)
Definition mget (M : mat) (c r : nat) : T := vget (mcol M c) r.

(** [M[c] = V]. *)
Fixpoint mset_col (M : mat) (c : nat) (V : vec) : mat :=
  match M, c with
  | [], _ => []
  | _ :: M', O => V :: M'
  | a :: M', S c' => a :: mset_col M' c' V
  end.

(** [M[c][r] = x]. *)
Definition mset (M : mat) (c r : nat) (x : T) : mat :=
  mset_col M c (vset (mcol M c) r x).

Definition mat_identity (N : nat) : mat :=
  for_ N (fun i M =>
    for_ N (fun j M => mset M i j (s_of_int (if Nat.eqb i j then 1 else 0))) M)
    (mat_init N N).

Definition mat_mul (N : nat) (A B : mat) : mat :=
  for_ N (fun c R =>
    for_ N (fun r R =>
      let sum := for_ N (fun k sum => sum + mget A k r * mget B c k) s_zero in
      mset R c r sum) R)
    (mat_init N N).

Definition mat_mul_vec (N : nat) (M : mat) (V : vec) : vec :=
  for_ N (fun r R =>
    let s := for_ N (fun c s => s + mget M c r * vget V c) s_zero in
    vset R r s)
    (vec_init N).

End Mat.

(** ** quat.hpp: quaternions, layout (x, y, z, w) *)

Section Quat.
Context {T : Type} `{Scalar T}.
Local Open Scope scalar_scope.

Record quat_of : Type := mk_quat { qv : @vec T; qw : T }.

(** [quat_of<T>{}]. *)
Definition quat_init : quat_of := mk_quat (vec_init 3) s_zero.

(** [Q[i]] as an access: into the array [v] below 3, the member [w] from
    3 on. *)
Definition quat_at (Q : quat_of) (i : nat) : option T :=
  if Nat.ltb i 3 then vec_at (qv Q) i else Some (qw Q).

Definition quat_identity : quat_of := mk_quat (vec_init 3) (s_of_int 1).

Definition quat_scale (Q : quat_of) (s : T) : quat_of :=
  mk_quat (vec_scale 3 (qv Q) s) (qw Q * s).

Definition quat_dot (A B : quat_of) : T :=
  vec_dot 3 (qv A) (qv B) + qw A * qw B.

Definition quat_len (Q : quat_of) : T :=
  s_of_float (Libc.sqrtf (s_to_float (quat_dot Q Q))).

Definition quat_norm (Q : quat_of) : quat_of :=
  let LEN := quat_len Q in
  if s_eqb LEN (s_of_int 0) then quat_init
  else quat_scale Q (s_of_int 1 / LEN).

Definition quat_conj (Q : quat_of) : quat_of :=
  mk_quat (vec_neg 3 (qv Q)) (qw Q).

Definition quat_mul (P Q : quat_of) : quat_of :=
  mk_quat
    (vec_add 3
       (vec_add 3 (vec3_cross (qv P) (qv Q)) (vec_scale 3 (qv P) (qw Q)))
       (vec_scale 3 (qv Q) (qw P)))
    (qw P * qw Q - vec_dot 3 (qv P) (qv Q)).

(** [operator==] on quaternions. *)
Definition quat_eqb (A B : quat_of) : bool :=
  vec_eqb 3 (qv A) (qv B) && s_eqb (qw A) (qw B).

(** The pivot search of [quat_from_mat4]: the loop state is [r] and the
    index array [p]. *)
Definition pivot_step (M : mat) (i : nat) (st : T * (nat * nat * nat))
    : T * (nat * nat * nat) :=
  let '(r, p) := st in
  if s_ltb r (mget M i i)
  then (mget M i i, (i, Nat.modulo (i + 1) 3, Nat.modulo (i + 2) 3))
  else (r, p).

Definition pivot (M : mat) : T * (nat * nat * nat) :=
  for_ 3 (pivot_step M) (s_zero, (0, 1, 2)%nat).

(** The radicand under the square root, for the chosen pivot. *)
Definition radicand (M : mat) : T :=
  let '(_, (p0, p1, p2)) := pivot M in
  s_of_int 1 + mget M p0 p0 - mget M p1 p1 - mget M p2 p2.

Definition quat_from_mat4 (M : mat) : quat_of :=
  let '(_, (p0, p1, p2)) := pivot M in
  let r := s_of_float (Libc.sqrtf (s_to_float
             (s_of_int 1 + mget M p0 p0 - mget M p1 p1 - mget M p2 p2))) in
  if s_ltb r (s_of_double 1 (-6))
  then mk_quat [s_of_int 1; s_of_int 0; s_of_int 0] (s_of_int 0)
  else
    let inv := s_of_int 1 / (s_of_int 2 * r) in
    mk_quat
      [ r * s_of_double 5 (-1);
        (mget M p0 p1 - mget M p1 p0) * inv;
        (mget M p2 p0 - mget M p0 p2) * inv ]
      ((mget M p2 p1 - mget M p1 p2) * inv).

End Quat.

Arguments quat_of T : clear implicits.

(** ** The float aliases and the named constructors of mat.hpp *)

Definition vec3 : Type := @vec F32.float.
Definition vec4 : Type := @vec F32.float.
Definition mat4 : Type := @mat F32.float.
Definition quat : Type := quat_of F32.float.

Definition mat4_translate (x y z : F32.float) : mat4 :=
  let M := mat_identity 4 in
  let M := mset M 3 0 x in
  let M := mset M 3 1 y in
  let M := mset M 3 2 z in
  M.

Definition mat4_rotate_x (fuel : nat) (a : F32.float) : option mat4 :=
  s <- Libc.sinf fuel a ;;
  c <- Libc.cosf fuel a ;;
  let M := mat_identity 4 in
  let M := mset M 1 1 c in
  let M := mset M 2 1 (F32.neg s) in
  let M := mset M 1 2 s in
  let M := mset M 2 2 c in
  Some M.

Definition mat4_rotate_y (fuel : nat) (a : F32.float) : option mat4 :=
  s <- Libc.sinf fuel a ;;
  c <- Libc.cosf fuel a ;;
  let M := mat_identity 4 in
  let M := mset M 0 0 c in
  let M := mset M 2 0 s in
  let M := mset M 0 2 (F32.neg s) in
  let M := mset M 2 2 c in
  Some M.

(** ** detail/simd_integration.hpp: the capability level and its ceiling *)

Module Simd.

Inductive level : Type := none | sse2 | avx | avx2 | neon.

(** The macros that decide which [case] labels of the dispatching switches
    exist.  The switches spell a NEON case, so the record has its macro; as the
    source stands no build defines it: off x86 the closing brace of [xgetbv]
    (line 71 of simd_integration.hpp) is outside the [#if] that opens the
    function and closes the namespace early, so only x86 targets compile. *)
Record target : Type := { has_SSE2 : bool; has_ARM_NEON : bool }.

Definition x86_64 : target := {| has_SSE2 := true; has_ARM_NEON := false |}.
Definition no_simd : target := {| has_SSE2 := false; has_ARM_NEON := false |}.

(** The implementation a [switch (simd::max_level())] reaches: a [case]
    label exists only where its macro is defined, every other value falls
    to [default]. *)
Inductive path : Type := scalar | via_sse2 | via_neon.

Definition dispatch (tg : target) (max_level : level) : path :=
  match max_level with
  | neon => if has_ARM_NEON tg then via_neon else scalar
  | sse2 | avx | avx2 => if has_SSE2 tg then via_sse2 else scalar
  | none => scalar
  end.

End Simd.

(** ** Four-lane registers and the intrinsics the accelerated bodies use *)

Module Lanes.
Import F32.

Record m128 : Type := lanes { l0 : float; l1 : float; l2 : float; l3 : float }.

Definition lane (a : m128) (i : Z) : float :=
  if i =? 0 then l0 a else if i =? 1 then l1 a
  else if i =? 2 then l2 a else l3 a.

Definition map2 (f : float -> float -> float) (a b : m128) : m128 :=
  lanes (f (l0 a) (l0 b)) (f (l1 a) (l1 b)) (f (l2 a) (l2 b)) (f (l3 a) (l3 b)).

(** SSE. *)
Definition _mm_loadu_ps (p : @vec float) : m128 :=
  lanes (vget p 0) (vget p 1) (vget p 2) (vget p 3).
Definition _mm_storeu_ps (r : m128) : @vec float := [l0 r; l1 r; l2 r; l3 r].
Definition _mm_set1_ps (x : float) : m128 := lanes x x x x.
Definition _mm_mul_ps : m128 -> m128 -> m128 := map2 mul.
Definition _mm_add_ps : m128 -> m128 -> m128 := map2 add.
Definition _MM_SHUFFLE (z y x w : Z) : Z :=
  Z.lor (Z.lor (Z.shiftl z 6) (Z.shiftl y 4)) (Z.lor (Z.shiftl x 2) w).
Definition _mm_shuffle_ps (a b : m128) (imm : Z) : m128 :=
  lanes (lane a (Z.land imm 3))
        (lane a (Z.land (Z.shiftr imm 2) 3))
        (lane b (Z.land (Z.shiftr imm 4) 3))
        (lane b (Z.land (Z.shiftr imm 6) 3)).
Definition _mm_movehl_ps (a b : m128) : m128 :=
  lanes (l2 b) (l3 b) (l2 a) (l3 a).
Definition _mm_add_ss (a b : m128) : m128 :=
  lanes (add (l0 a) (l0 b)) (l1 a) (l2 a) (l3 a).
Definition _mm_cvtss_f32 (a : m128) : float := l0 a.

(** NEON, as the bodies under [__ARM_NEON] spell it: [vmlaq_n_f32 a b c] is
    [a + b * c], a multiply followed by an accumulate. *)
Definition vld1q_f32 : @vec float -> m128 := _mm_loadu_ps.
Definition vst1q_f32 : m128 -> @vec float := _mm_storeu_ps.
Definition vmulq_f32 : m128 -> m128 -> m128 := map2 mul.
Definition vmulq_n_f32 (a : m128) (c : float) : m128 :=
  map2 mul a (lanes c c c c).
Definition vmlaq_n_f32 (a b : m128) (c : float) : m128 :=
  map2 add a (vmulq_n_f32 b c).
Definition vget_low_f32 (a : m128) : float * float := (l0 a, l1 a).
Definition vget_high_f32 (a : m128) : float * float := (l2 a, l3 a).
Definition vadd_f32 (a b : float * float) : float * float :=
  (add (fst a) (fst b), add (snd a) (snd b)).

End Lanes.

(** ** The accelerated bodies and the dispatching entry points *)

Section Dispatch.
Import Lanes.

Definition dot_sse2 (a b : vec4) : F32.float :=
  let va := _mm_loadu_ps a in
  let vb := _mm_loadu_ps b in
  let mul := _mm_mul_ps va vb in
  let shuf := _mm_shuffle_ps mul mul (_MM_SHUFFLE 2 3 0 1) in
  let sums := _mm_add_ps mul shuf in
  let shuf := _mm_movehl_ps shuf sums in
  let sums := _mm_add_ss sums shuf in
  _mm_cvtss_f32 sums.

Definition dot_neon (a b : vec4) : F32.float :=
  let va := vld1q_f32 a in
  let vb := vld1q_f32 b in
  let mul := vmulq_f32 va vb in
  let sum := vadd_f32 (vget_low_f32 mul) (vget_high_f32 mul) in
  F32.add (fst sum) (snd sum).

Definition vec4_dot (tg : Simd.target) (max_level : Simd.level)
    (A B : vec4) : F32.float :=
  match Simd.dispatch tg max_level with
  | Simd.via_neon => dot_neon A B
  | Simd.via_sse2 => dot_sse2 A B
  | Simd.scalar => vec_dot 4 A B
  end.

Definition mat4_mul_vec_sse2 (M : mat4) (V : vec4) : vec4 :=
  let vx := _mm_set1_ps (vget V 0) in
  let vy := _mm_set1_ps (vget V 1) in
  let vz := _mm_set1_ps (vget V 2) in
  let vw := _mm_set1_ps (vget V 3) in
  let c0 := _mm_loadu_ps (mcol M 0) in
  let c1 := _mm_loadu_ps (mcol M 1) in
  let c2 := _mm_loadu_ps (mcol M 2) in
  let c3 := _mm_loadu_ps (mcol M 3) in
  let r :=
    _mm_add_ps
      (_mm_add_ps (_mm_mul_ps c0 vx) (_mm_mul_ps c1 vy))
      (_mm_add_ps (_mm_mul_ps c2 vz) (_mm_mul_ps c3 vw)) in
  _mm_storeu_ps r.

Definition mat4_mul_vec_neon (M : mat4) (V : vec4) : vec4 :=
  let r := vmulq_n_f32 (vld1q_f32 (mcol M 0)) (vget V 0) in
  let r := vmlaq_n_f32 r (vld1q_f32 (mcol M 1)) (vget V 1) in
  let r := vmlaq_n_f32 r (vld1q_f32 (mcol M 2)) (vget V 2) in
  let r := vmlaq_n_f32 r (vld1q_f32 (mcol M 3)) (vget V 3) in
  vst1q_f32 r.

Definition mat4_mul_sse2 (A B : mat4) : mat4 :=
  for_ 4 (fun c R =>
    let bx := _mm_set1_ps (mget B c 0) in
    let by_ := _mm_set1_ps (mget B c 1) in
    let bz := _mm_set1_ps (mget B c 2) in
    let bw := _mm_set1_ps (mget B c 3) in
    let r :=
      _mm_add_ps
        (_mm_add_ps (_mm_mul_ps (_mm_loadu_ps (mcol A 0)) bx)
                    (_mm_mul_ps (_mm_loadu_ps (mcol A 1)) by_))
        (_mm_add_ps (_mm_mul_ps (_mm_loadu_ps (mcol A 2)) bz)
                    (_mm_mul_ps (_mm_loadu_ps (mcol A 3)) bw)) in
    mset_col R c (_mm_storeu_ps r))
    (mat_init 4 4).

Definition mat4_mul_neon (A B : mat4) : mat4 :=
  for_ 4 (fun c R =>
    let r := vmulq_n_f32 (vld1q_f32 (mcol A 0)) (mget B c 0) in
    let r := vmlaq_n_f32 r (vld1q_f32 (mcol A 1)) (mget B c 1) in
    let r := vmlaq_n_f32 r (vld1q_f32 (mcol A 2)) (mget B c 2) in
    let r := vmlaq_n_f32 r (vld1q_f32 (mcol A 3)) (mget B c 3) in
    mset_col R c (vst1q_f32 r))
    (mat_init 4 4).

Definition mat4_mul (tg : Simd.target) (max_level : Simd.level)
    (A B : mat4) : mat4 :=
  match Simd.dispatch tg max_level with
  | Simd.via_neon => mat4_mul_neon A B
  | Simd.via_sse2 => mat4_mul_sse2 A B
  | Simd.scalar => mat_mul 4 A B
  end.

Definition mat4_mul_vec (tg : Simd.target) (max_level : Simd.level)
    (M : mat4) (V : vec4) : vec4 :=
  match Simd.dispatch tg max_level with
  | Simd.via_neon => mat4_mul_vec_neon M V
  | Simd.via_sse2 => mat4_mul_vec_sse2 M V
  | Simd.scalar => mat_mul_vec 4 M V
  end.

End Dispatch.

(** ** Values and predicates the statements use *)

Definition f32 (z : Z) : F32.float := F32.of_Z z.

(** [signed s x]: [x] is a number (not NaN) whose sign bit is [s]. *)
Definition signed (s : bool) (x : spec_float) : Prop :=
  match x with
  | S754_zero s' | S754_infinity s' | S754_finite s' _ _ => s' = s
  | S754_nan => False
  end.

(** The distance of a float to a rational, as a bound on a finite value. *)
Definition within (eps : Q) (x : F32.float) (y : Q) : Prop :=
  F32.is_finite x = true /\ (Qabs (F32.to_Q x - y) <= eps)%Q.

(** [mat4_rotate_x(PI_HALF) * (0,1,0,1)]. *)
Definition rotate_x_quarter (fuel : nat) : option vec4 :=
  M <- mat4_rotate_x fuel Libc.PI_HALF ;;
  Some (mat_mul_vec 4 M [f32 0; f32 1; f32 0; f32 1]).

(** The float the portable [sinf] returns at [PI_HALF]: 8426565 * 2^-23,
    about 1.0045254. *)
Definition sinf_PI_HALF : F32.float := S754_finite false 8426565 (-23).

(** Inputs on which the order of the additions shows. *)
Definition dot_a : vec4 := [f32 16777216; f32 0; f32 1; f32 1].
Definition dot_b : vec4 := [f32 1; f32 1; f32 1; f32 1].

Definition mul_A : mat4 :=
  [ [f32 16777216; f32 0; f32 0; f32 0];
    [f32 0; f32 0; f32 0; f32 0];
    [f32 1; f32 0; f32 0; f32 0];
    [f32 1; f32 0; f32 0; f32 0] ].
Definition mul_B : mat4 := [dot_b; dot_b; dot_b; dot_b].

Definition cross_products_finite (q : quat) : bool :=
  let v := qv q in
  let w := qw q in
  forallb F32.is_finite
    [ F32.mul (vget v 1) (vget v 2); F32.mul (vget v 2) (vget v 0);
      F32.mul (vget v 0) (vget v 1);
      F32.mul (vget v 0) w; F32.mul (vget v 1) w; F32.mul (vget v 2) w ].


Definition q_big : quat :=
  mk_quat [f32 (2 ^ 100); f32 (2 ^ 100); f32 0] (f32 0).


(** ** Further operations of vec.hpp *)

Section VecMore.
Context {T : Type} `{Scalar T}.
Local Open Scope scalar_scope.

Definition vec_min (N : nat) (A B : vec) : vec :=
  for_ N (fun i res =>
    vset res i (if s_ltb (vget A i) (vget B i) then vget A i else vget B i))
    (vec_init N).

Definition vec_max (N : nat) (A B : vec) : vec :=
  for_ N (fun i res =>
    vset res i (if s_ltb (vget B i) (vget A i) then vget A i else vget B i))
    (vec_init N).

(** [operator/] by a scalar. *)
Definition vec_div (N : nat) (V : vec) (S : T) : vec :=
  vec_scale N V (s_of_int 1 / S).

End VecMore.

(** ** Further operations of mat.hpp *)

Section MatMore.
Context {T : Type} `{Scalar T}.
Local Open Scope scalar_scope.

Definition mat_add (C R : nat) (A B : mat) : mat :=
  for_ C (fun c M => mset_col M c (vec_add R (mcol A c) (mcol B c)))
    (mat_init C R).

Definition mat_sub (C R : nat) (A B : mat) : mat :=
  for_ C (fun c M => mset_col M c (vec_sub R (mcol A c) (mcol B c)))
    (mat_init C R).

Definition mat_scale (C R : nat) (A : mat) (S : T) : mat :=
  for_ C (fun c M => mset_col M c (vec_scale R (mcol A c) S)) (mat_init C R).

(** [mat<T,C,R>] to [mat<T,R,C>]. *)
Definition mat_transpose (C R : nat) (M : mat) : mat :=
  for_ C (fun c Rm => for_ R (fun r Rm => mset Rm r c (mget M c r)) Rm)
    (mat_init R C).

(** [operator*] of a row vector by a matrix. *)
Definition vec_mul_mat (N : nat) (V : vec) (M : mat) : vec :=
  for_ N (fun c res =>
    let s := for_ N (fun k s => s + vget V k * mget M c k) s_zero in
    vset res c s)
    (vec_init N).

(** [operator==] on matrices. *)
Definition mat_eqb (C R : nat) (a b : mat) : bool :=
  forallb (fun c => forallb (fun r => s_eqb (mget a c r) (mget b c r)) (seq 0 R))
    (seq 0 C).

End MatMore.


(** ** Further operations of quat.hpp *)

Section QuatMore.
Context {T : Type} `{Scalar T}.
Local Open Scope scalar_scope.

Definition quat_add (A B : quat_of T) : quat_of T :=
  mk_quat (vec_add 3 (qv A) (qv B)) (qw A + qw B).

Definition quat_sub (A B : quat_of T) : quat_of T :=
  mk_quat (vec_sub 3 (qv A) (qv B)) (qw A - qw B).

Definition quat_mul_vec3 (Q : quat_of T) (V : vec) : vec :=
  let C := vec_scale 3 (vec3_cross (qv Q) V) (s_of_int 2) in
  vec_add 3 (vec_add 3 V (vec_scale 3 C (qw Q))) (vec3_cross (qv Q) C).

Definition mat4_from_quat (Q : quat_of T) : mat :=
  let A := qw Q in
  let B := vget (qv Q) 0 in
  let C := vget (qv Q) 1 in
  let D := vget (qv Q) 2 in
  let A2 := A * A in
  let B2 := B * B in
  let C2 := C * C in
  let D2 := D * D in
  let M := mat_init 4 4 in
  let M := mset M 0 0 (A2 + B2 - C2 - D2) in
  let M := mset M 0 1 (s_of_int 2 * (B * C + A * D)) in
  let M := mset M 0 2 (s_of_int 2 * (B * D - A * C)) in
  let M := mset M 1 0 (s_of_int 2 * (B * C - A * D)) in
  let M := mset M 1 1 (A2 - B2 + C2 - D2) in
  let M := mset M 1 2 (s_of_int 2 * (C * D + A * B)) in
  let M := mset M 2 0 (s_of_int 2 * (B * D + A * C)) in
  let M := mset M 2 1 (s_of_int 2 * (C * D - A * B)) in
  let M := mset M 2 2 (A2 - B2 - C2 + D2) in
  let M := mset M 3 3 (s_of_int 1) in
  M.

End QuatMore.

(** ** detail/simd_integration.hpp: measuring the capability level *)

Module Detect.
Import Simd.

(** What the processor and the operating system answer: the registers of
    CPUID leaf 1, EBX of CPUID leaf 7 and XCR0. *)
Record cpu : Type := {
  leaf1_ecx : Z;
  leaf1_edx : Z;
  leaf7_ebx : Z;
  xcr0 : Z
}.

(** The macros [runtime_level] is compiled under. *)
Record macros : Type := {
  x86 : bool;         (* __x86_64__, __i386__, _M_IX86 or _M_X64 *)
  arm : bool;         (* __aarch64__ or __ARM_NEON *)
  def_SSE2 : bool;    (* __SSE2__ *)
  def_AVX : bool;     (* __AVX__ *)
  def_AVX2 : bool;    (* __AVX2__ *)
  def_MSC_VER : bool  (* _MSC_VER *)
}.

Definition bit_set (x : Z) (k : Z) : bool :=
  negb (Z.land x (Z.shiftl 1 k) =? 0).

Definition runtime_level (m : macros) (c : cpu) : level :=
  if x86 m then
    let hw_sse2 := bit_set (leaf1_edx c) 26 in
    let hw_avx := bit_set (leaf1_ecx c) 28 in
    let osxsave := bit_set (leaf1_ecx c) 27 in
    if (def_AVX m || def_MSC_VER m) && (hw_avx && osxsave)
       && (Z.land (xcr0 c) 6 =? 6)
    then
      if def_AVX2 m && bit_set (leaf7_ebx c) 5 then avx2 else avx
    else if (def_SSE2 m || def_MSC_VER m) && hw_sse2 then sse2
    else none
  else if arm m then neon
  else none.

End Detect.

(** ** Shapes and values the further statements use *)

Definition wf_mat {T : Type} (C R : nat) (M : list (list T)) : Prop :=
  length M = C /\ Forall (fun col => length col = R) M.

(** A finite binary32 value in canonical form. *)
Definition f32_valid (x : F32.float) : Prop :=
  F32.is_finite x = true /\ valid_binary F32.prec F32.emax x = true.

Definition is_zero (x : F32.float) : bool :=
  match x with S754_zero _ => true | _ => false end.

(** A float with the sign of a zero dropped: what adding it to +0 gives. *)
Definition unsigned_zero (x : F32.float) : F32.float :=
  match x with S754_zero _ => F32.pzero | _ => x end.

(** Inputs without NaN: vectors, matrices and quaternions. *)
Definition nan_free (V : list F32.float) : Prop :=
  Forall (fun x => F32.is_nan x = false) V.

Definition nan_free_mat (M : list (list F32.float)) : Prop :=
  Forall nan_free M.

Definition nan_free_quat (q : quat) : Prop := nan_free (qw q :: qv q).

(** ** [quat_mul] under floating-point contraction

    A compiler that contracts floating-point expressions (GCC by default, on
    a target with fused multiply-add) evaluates [a*b + c] with one rounding.
    [f32_fma x y z] is that operation: the exact [x*y + z], rounded once. *)
Definition f32_fma (x y z : F32.float) : F32.float :=
  match x, y with
  | S754_finite sx mx ex, S754_finite sy my ey =>
      match z with
      | S754_nan => S754_nan
      | S754_infinity _ => z
      | S754_zero _ => F32.mul x y
      | S754_finite sz mz ez =>
          let e := Z.min (ex + ey) ez in
          binary_normalize F32.prec F32.emax
            (cond_Zopp (xorb sx sy)
               (Zpos (fst (shl_align (mx * my) (ex + ey) e)))
             + cond_Zopp sz (Zpos (fst (shl_align mz ez e))))
            e false
      end
  | _, _ => F32.add (F32.mul x y) z
  end.

(** [A[1]*B[2] - A[2]*B[1]] and its two siblings, the first product of each
    fused with the subtraction. *)
Definition vec3_cross_fused (A B : vec3) : vec3 :=
  [ f32_fma (vget A 1) (vget B 2) (F32.neg (F32.mul (vget A 2) (vget B 1)));
    f32_fma (vget A 2) (vget B 0) (F32.neg (F32.mul (vget A 0) (vget B 2)));
    f32_fma (vget A 0) (vget B 1) (F32.neg (F32.mul (vget A 1) (vget B 0))) ].

(** [vec3_cross(P.v,Q.v) + (P.v * Q.w) + (Q.v * P.w)] after inlining, each
    scaling fused with the addition that consumes it; the scalar part as
    written. *)
Definition quat_mul_fused (P Q : quat) : quat :=
  let c := vec3_cross_fused (qv P) (qv Q) in
  mk_quat
    (map (fun i =>
            f32_fma (vget (qv Q) i) (qw P)
              (f32_fma (vget (qv P) i) (qw Q) (vget c i)))
         (seq 0 3))
    (qw (quat_mul P Q)).

(** The quaternion (0.1f, -0.2f, 0.3f; 0.7f). *)
Definition q_tenths : quat :=
  mk_quat [F32.of_dec 1 (-1); F32.of_dec (-2) (-1); F32.of_dec 3 (-1)]
          (F32.of_dec 7 (-1)).

(** * Properties *)

(** ** Loops *)

Lemma for_succ {St : Type} (n : nat) (body : nat -> St -> St) (s : St) :
  for_ (S n) body s = body n (for_ n body s).
Proof.
  unfold for_. rewrite seq_S, fold_left_app. reflexivity.
Qed.

(** A property kept by every iteration holds when the loop ends. *)
Lemma for_invariant {St : Type} (P : St -> Prop) (n : nat)
    (body : nat -> St -> St) (s : St) :
  P s -> (forall i acc, (i < n)%nat -> P acc -> P (body i acc)) ->
  P (for_ n body s).
Proof.
  intros Hs Hbody. induction n as [|n IH].
  - exact Hs.
  - rewrite for_succ. apply Hbody; [lia|]. apply IH.
    intros i acc Hi. apply Hbody. lia.
Qed.

(** A loop whose condition holds at a fixed point of its body never ends. *)
Lemma while_stuck {St : Type} (cond : St -> bool) (body : St -> St) (s : St) :
  cond s = true -> body s = s ->
  forall fuel, while_ cond body fuel s = None.
Proof.
  intros Hc Hb fuel. induction fuel as [|fuel IH]; simpl.
  - reflexivity.
  - rewrite Hc, Hb. exact IH.
Qed.

(** A loop whose condition is false on entry returns its state at once. *)
Lemma while_skip {St : Type} (cond : St -> bool) (body : St -> St) (s : St) :
  cond s = false ->
  forall fuel, while_ cond body (S fuel) s = Some s.
Proof.
  intros Hc fuel. simpl. rewrite Hc. reflexivity.
Qed.

(** ** Storage *)

Section VecFacts.
Context {T : Type} `{Scalar T}.

Lemma vget_vec_init (N i : nat) : vget (vec_init N) i = s_zero.
Proof.
  unfold vget, vec_init. revert i.
  induction N as [|N IH]; intros [|i]; simpl; auto.
Qed.

Lemma vec_at_vget (V : vec) (i : nat) :
  (i < length V)%nat -> vec_at V i = Some (vget V i).
Proof.
  unfold vec_at, vget. revert i.
  induction V as [|a V IH]; intros [|i] Hi; simpl in *; try lia; auto.
  apply IH. lia.
Qed.

Lemma vec_init_all_zero (N : nat) : Forall (fun x => x = s_zero) (vec_init N).
Proof.
  unfold vec_init. induction N; simpl; constructor; auto.
Qed.

End VecFacts.

(** ** C7, C8: the two scenarios *)

(** C7. With a = (1,2,3) and b = (4,5,6) as float vectors, [vec_dot] is
    exactly 32, [vec_add] is exactly (5,7,9) and [vec3_cross] is exactly
    (-3,6,-3): every result is the very float, bit for bit. *)
Theorem vec3_scenario :
  let a : vec3 := [f32 1; f32 2; f32 3] in
  let b : vec3 := [f32 4; f32 5; f32 6] in
  vec_dot 3 a b = f32 32 /\
  vec_add 3 a b = [f32 5; f32 7; f32 9] /\
  vec3_cross a b = [f32 (-3); f32 6; f32 (-3)].
Proof.
  vm_compute. repeat split.
Qed.

(** C8. [mat4_translate(1,2,3)] times the vector (1,2,3,1) is exactly
    (2,4,6,1), through the generic [mat_mul_vec] and through every path the
    dispatching [mat4_mul_vec] can take. *)
Theorem translate_scenario :
  let M := mat4_translate (f32 1) (f32 2) (f32 3) in
  let V : vec4 := [f32 1; f32 2; f32 3; f32 1] in
  mat_mul_vec 4 M V = [f32 2; f32 4; f32 6; f32 1] /\
  forall tg max_level,
    mat4_mul_vec tg max_level M V = [f32 2; f32 4; f32 6; f32 1].
Proof.
  split.
  - vm_compute. reflexivity.
  - intros [[|] [|]] [| | | |]; vm_compute; reflexivity.
Qed.

(** ** C9: the guard of [sqrtf] *)

Lemma ltb_leb (x y : F32.float) : F32.ltb x y = true -> F32.leb x y = true.
Proof.
  unfold F32.ltb, F32.leb, SFltb, SFleb.
  destruct (SFcompare x y) as [[ | | ]|]; intros E; auto; discriminate.
Qed.

Lemma sqrtf_guard (X : F32.float) :
  F32.leb X F32.pzero = true -> Libc.sqrtf X = F32.pzero.
Proof.
  intros HX. unfold Libc.sqrtf. rewrite HX. reflexivity.
Qed.

Lemma vec_dot_zero (N : nat) :
  vec_dot N (vec_init N) (vec_init N) = F32.pzero.
Proof.
  unfold vec_dot.
  apply for_invariant with (P := fun s : F32.float => s = F32.pzero).
  - reflexivity.
  - intros i acc _ ->. rewrite vget_vec_init. reflexivity.
Qed.

Lemma vec_len_zero (N : nat) : vec_len N (vec_init N) = F32.pzero.
Proof.
  unfold vec_len. rewrite vec_dot_zero. reflexivity.
Qed.

(** C9. For every float X that is negative or, more generally, satisfies
    X <= 0 (both zeros included), [sqrtf] returns exactly +0.0f, which is not
    NaN; hence the length of the all-zero vector of any size is exactly
    +0.0f. *)
Theorem sqrtf_nonpositive (X : F32.float) (N : nat) :
  F32.ltb X F32.pzero = true \/ F32.leb X F32.pzero = true ->
  Libc.sqrtf X = F32.pzero /\
  F32.is_nan (Libc.sqrtf X) = false /\
  vec_len N (vec_init N) = F32.pzero.
Proof.
  intros HX.
  assert (Hle : F32.leb X F32.pzero = true)
    by (destruct HX as [Hlt|Hle]; [apply ltb_leb, Hlt|exact Hle]).
  rewrite (sqrtf_guard X Hle).
  repeat split; auto using vec_len_zero.
Qed.

Lemma sqrtf_nonpositive_witness :
  F32.ltb (f32 (-4)) F32.pzero = true /\
  Libc.sqrtf (f32 (-4)) = F32.pzero /\
  vec_len 3 (vec_init (T := F32.float) 3) = F32.pzero.
Proof.
  assert (H : F32.ltb (f32 (-4)) F32.pzero = true) by reflexivity.
  split; [exact H|].
  destruct (sqrtf_nonpositive (f32 (-4)) 3 (or_introl H)) as (E1 & _ & E2).
  split; assumption.
Defined.

(** ** C2: normalising a value of length zero *)

Section NormFacts.
Context {T : Type} `{Scalar T}.

Lemma vec_norm_zero_len (N : nat) (V : vec) :
  s_eqb (vec_len N V) (s_of_int 0) = true -> vec_norm N V = vec_init N.
Proof.
  intros HL. unfold vec_norm. rewrite HL. reflexivity.
Qed.

Lemma quat_norm_zero_len (Q : quat_of T) :
  s_eqb (quat_len Q) (s_of_int 0) = true -> quat_norm Q = quat_init.
Proof.
  intros HL. unfold quat_norm. rewrite HL. reflexivity.
Qed.

End NormFacts.

Lemma vec_init_finite (N : nat) :
  Forall (fun x => F32.is_finite x = true) (vec_init (T := F32.float) N).
Proof.
  eapply Forall_impl; [|apply vec_init_all_zero].
  intros x ->. reflexivity.
Qed.

(** C2. For every element type T and every size N: a vector V whose
    [vec_len] compares equal to zero is normalised to the vector of N
    components that are all T{}, and a quaternion Q whose [quat_len] compares
    equal to zero is normalised to the quaternion whose three vector
    components and scalar part are all T{}, so that every index reads T{}.
    At T = float, T{} is +0.0f, so every component of the result is finite
    and none is NaN; the all-zero vector and quaternion have length zero,
    hence are their own normalisation. *)
Theorem norm_of_zero_length (T : Type) (ST : Scalar T) (N : nat)
    (V : @vec T) (Q : quat_of T) (Vf : @vec F32.float) (Qf : quat) :
  (s_eqb (vec_len N V) (s_of_int 0) = true ->
     vec_norm N V = repeat s_zero N /\
     length (vec_norm N V) = N /\
     (forall i, (i < N)%nat -> vec_at (vec_norm N V) i = Some s_zero)) /\
  (s_eqb (quat_len Q) (s_of_int 0) = true ->
     quat_norm Q = mk_quat [s_zero; s_zero; s_zero] s_zero /\
     (forall i, quat_at (quat_norm Q) i = Some s_zero)) /\
  (s_zero (T := F32.float) = S754_zero false /\
   F32.is_finite (s_zero (T := F32.float)) = true /\
   F32.is_nan (s_zero (T := F32.float)) = false) /\
  (F32.eqb (vec_len N Vf) (F32.of_Z 0) = true ->
     Forall (fun x => F32.is_finite x = true /\ F32.is_nan x = false)
            (vec_norm N Vf)) /\
  (F32.eqb (quat_len Qf) (F32.of_Z 0) = true ->
     Forall (fun x => F32.is_finite x = true /\ F32.is_nan x = false)
            (qw (quat_norm Qf) :: qv (quat_norm Qf))) /\
  (vec_norm (T := F32.float) N (repeat F32.pzero N) = repeat F32.pzero N /\
   quat_norm (mk_quat [F32.pzero; F32.pzero; F32.pzero] F32.pzero)
   = mk_quat [F32.pzero; F32.pzero; F32.pzero] F32.pzero).
Proof.
  split; [|split; [|split; [|split; [|split]]]].
  - intros HV. rewrite (vec_norm_zero_len N V HV).
    split; [reflexivity|]. split; [apply repeat_length|].
    intros i Hi.
    rewrite vec_at_vget by (unfold vec_init; rewrite repeat_length; exact Hi).
    rewrite vget_vec_init. reflexivity.
  - intros HQ. rewrite (quat_norm_zero_len Q HQ).
    split; [reflexivity|].
    intros [|[|[|i]]]; reflexivity.
  - repeat split.
  - intros HV.
    change (s_eqb (vec_len N Vf) (s_of_int 0) = true) in HV.
    rewrite (vec_norm_zero_len N Vf HV).
    apply Forall_forall. intros x Hx.
    apply repeat_spec in Hx. subst x. split; reflexivity.
  - intros HQ.
    change (s_eqb (quat_len Qf) (s_of_int 0) = true) in HQ.
    rewrite (quat_norm_zero_len Qf HQ).
    repeat constructor.
  - split.
    + change (vec_norm (T := F32.float) N (vec_init N) = vec_init N).
      apply vec_norm_zero_len. rewrite vec_len_zero. reflexivity.
    + change (quat_norm (T := F32.float) quat_init = quat_init).
      apply quat_norm_zero_len. vm_compute. reflexivity.
Qed.

Lemma norm_of_zero_length_witness :
  let V : vec4 := [F32.pzero; F32.neg F32.pzero; F32.pzero; F32.pzero] in
  let Q : quat := mk_quat [F32.pzero; F32.pzero; F32.pzero] (F32.neg F32.pzero) in
  s_eqb (vec_len 4 V) (s_of_int 0) = true /\
  s_eqb (quat_len Q) (s_of_int 0) = true /\
  vec_norm 4 V = [F32.pzero; F32.pzero; F32.pzero; F32.pzero] /\
  quat_norm Q = mk_quat [F32.pzero; F32.pzero; F32.pzero] F32.pzero /\
  Forall (fun x => F32.is_finite x = true /\ F32.is_nan x = false)
         (vec_norm 4 V) /\
  Forall (fun x => F32.is_finite x = true /\ F32.is_nan x = false)
         (qw (quat_norm Q) :: qv (quat_norm Q)).
Proof.
  intros V Q.
  assert (HV : s_eqb (vec_len 4 V) (s_of_int 0) = true) by (vm_compute; reflexivity).
  assert (HQ : s_eqb (quat_len Q) (s_of_int 0) = true) by (vm_compute; reflexivity).
  destruct (@norm_of_zero_length _ _ 4%nat V Q V Q) as (E1 & E2 & _ & E3 & E4 & _).
  split; [exact HV|]. split; [exact HQ|]. split; [exact (proj1 (E1 HV))|].
  split; [exact (proj1 (E2 HQ))|]. split; [exact (E3 HV)|exact (E4 HQ)].
Defined.

(** ** C10: indexing a quaternion *)

(** C10. For every element type, every quaternion Q (its array [v] holding
    three elements) and every index i, [Q[i]] is an access inside the object:
    it reads [Q.v[i]] when i < 3 and the scalar part [Q.w] for every i >= 3,
    so the indices 3, 4, 5, ... all alias [w]. *)
Theorem quat_index_total (T : Type) (ST : Scalar T) (Q : quat_of T) (i : nat) :
  length (qv Q) = 3%nat ->
  quat_at Q i = Some (if Nat.ltb i 3 then vget (qv Q) i else qw Q) /\
  ((3 <= i)%nat -> quat_at Q i = Some (qw Q)).
Proof.
  intros Hlen. unfold quat_at.
  destruct (Nat.ltb_spec i 3) as [Hi|Hi].
  - split; [|lia]. apply vec_at_vget. lia.
  - split; reflexivity.
Qed.

Lemma quat_index_total_witness :
  let Q : quat := mk_quat [f32 1; f32 2; f32 3] (f32 4) in
  length (qv Q) = 3%nat /\
  quat_at Q 1 = Some (f32 2) /\ quat_at Q 7 = Some (f32 4).
Proof.
  intros Q.
  assert (HQ : length (qv Q) = 3%nat) by reflexivity.
  split; [exact HQ|]. split.
  - exact (proj1 (@quat_index_total _ _ Q 1%nat HQ)).
  - exact (proj1 (@quat_index_total _ _ Q 7%nat HQ)).
Defined.

(** ** C3: the degenerate branch of [quat_from_mat4] *)

(** Whenever the pivot test fires, the result is the quaternion with vector
    part (1,0,0) and scalar part 0, for every element type. *)
Lemma quat_from_mat4_degenerate (T : Type) (ST : Scalar T) (M : @mat T) :
  s_ltb (s_of_float (Libc.sqrtf (s_to_float (radicand M))))
        (s_of_double 1 (-6)) = true ->
  quat_from_mat4 M = mk_quat [s_of_int 1; s_of_int 0; s_of_int 0] (s_of_int 0).
Proof.
  unfold quat_from_mat4, radicand.
  destruct (pivot M) as [r [[p0 p1] p2]].
  intros Hr. rewrite Hr. reflexivity.
Qed.

(** The pivot search starts from [r = 0], so a diagonal without a positive
    entry keeps the initial pivot 0 even when another entry is larger. *)
Example pivot_negative_diagonal :
  let M : mat4 :=
    mset (mset (mset (mat_init 4 4) 0 0 (f32 (-3))) 1 1 (f32 (-1))) 2 2 (f32 (-2)) in
  pivot M = (F32.pzero, (0, 1, 2)%nat).
Proof. reflexivity. Qed.

(** C3 (the code departs from it). On the identity matrix the pivot is the
    first diagonal entry, the radicand is 1 + 1 - 1 - 1 = 0, the pivot test
    fires, and [quat_from_mat4] returns vector part (1,0,0) with scalar part 0,
    which is not the identity quaternion (vector part (0,0,0), scalar part
    1) and does not compare equal to it. *)
Theorem quat_from_mat4_identity_matrix :
  let M : mat4 := mat_identity 4 in
  pivot M = (f32 1, (0, 1, 2)%nat) /\
  radicand M = F32.pzero /\
  F32.ltb (Libc.sqrtf (radicand M)) (F32.of_dec_double 1 (-6)) = true /\
  quat_from_mat4 M = mk_quat [f32 1; f32 0; f32 0] (f32 0) /\
  quat_identity = mk_quat [f32 0; f32 0; f32 0] (f32 1) /\
  quat_from_mat4 M <> quat_identity /\
  quat_eqb (quat_from_mat4 M) quat_identity = false.
Proof.
  vm_compute. repeat split; discriminate.
Qed.

(** ** C5: the range-reduction loops *)

(** C5 (the code departs from it). At the finite float 2^28 the spacing of
    binary32 values is 32, so subtracting 2*pi rounds back to 2^28: the first
    loop of [sinf] and the first loop of [tanf] keep their condition true for
    ever, and neither function returns, whatever the fuel. *)
Theorem range_reduction_does_not_terminate :
  let X := f32 268435456 in
  F32.is_finite X = true /\
  F32.geb X Libc.PI_DOUBLE = true /\
  F32.sub X Libc.PI_DOUBLE = X /\
  forall fuel, Libc.sinf fuel X = None /\ Libc.tanf fuel X = None.
Proof.
  intros X.
  assert (Hs : F32.sub X Libc.PI_DOUBLE = X) by (vm_compute; reflexivity).
  assert (Hc1 : F32.geb X Libc.PI_DOUBLE = true) by (vm_compute; reflexivity).
  assert (Hc2 : F32.gtb X Libc.PI = true) by (vm_compute; reflexivity).
  repeat split; auto.
  - unfold Libc.sinf, Libc.sinf_reduce_down.
    rewrite (@while_stuck _ (fun Y => F32.geb Y Libc.PI_DOUBLE)
               (fun Y => F32.sub Y Libc.PI_DOUBLE) X Hc1 Hs).
    reflexivity.
  - unfold Libc.tanf, Libc.tanf_reduce_down.
    rewrite (@while_stuck _ (fun Y => F32.gtb Y Libc.PI)
               (fun Y => F32.sub Y Libc.PI_DOUBLE) X Hc2 Hs).
    reflexivity.
Qed.

(** ** C4: a quarter turn about X *)

Lemma rotate_x_quarter_value (fuel : nat) :
  rotate_x_quarter (S fuel) = Some [f32 0; f32 0; sinf_PI_HALF; f32 1].
Proof.
  unfold rotate_x_quarter, mat4_rotate_x, Libc.cosf, Libc.sinf.
  unfold Libc.sinf_reduce_down, Libc.sinf_reduce_up.
  rewrite !while_skip by (vm_compute; reflexivity).
  vm_compute. reflexivity.
Qed.

(** C4 as stated fails: no amount of fuel makes the four components lie
    within 1e-5 of (0,0,1,1). *)
Lemma rotate_x_quarter_not_within_1e5 :
  ~ exists fuel r,
      rotate_x_quarter fuel = Some r /\
      Forall2 (within (1 # 100000)) r [0; 0; 1; 1]%Q.
Proof.
  intros (fuel & r & Hr & Hclose).
  destruct fuel as [|fuel]; [discriminate|].
  rewrite rotate_x_quarter_value in Hr. injection Hr as <-.
  inversion Hclose as [|? ? ? ? _ H1]; subst.
  inversion H1 as [|? ? ? ? _ H2]; subst.
  inversion H2 as [|? ? ? ? [_ Hz] _]; subst.
  vm_compute in Hz. apply Hz. reflexivity.
Qed.

(** C4, amended. With enough fuel for one test of each loop condition,
    [mat4_rotate_x(PI_HALF)] applied to (0,1,0,1) returns (0, 0, s, 1) where
    s is the float 8426565 * 2^-23 (about 1.0045254): the x, y and w
    components are exact and the z component is within 1e-2 of 1, and more
    than 1e-5 away from it. *)
Theorem rotate_x_quarter_within_1e2 (fuel : nat) :
  exists r,
    rotate_x_quarter (S fuel) = Some r /\
    r = [f32 0; f32 0; sinf_PI_HALF; f32 1] /\
    Forall2 (within (1 # 100)) r [0; 0; 1; 1]%Q /\
    ~ within (1 # 100000) (vget r 2) 1.
Proof.
  exists [f32 0; f32 0; sinf_PI_HALF; f32 1].
  split; [apply rotate_x_quarter_value|].
  split; [reflexivity|].
  split.
  - repeat constructor; vm_compute; discriminate.
  - intros [_ Hz]. vm_compute in Hz. apply Hz. reflexivity.
Qed.

(** ** C1: the scalar path against the accelerated paths *)

(** With the argument already in [0, 2*pi) neither loop of [sinf] iterates,
    so any positive fuel gives the same result. *)
Lemma sinf_in_range (fuel : nat) (X : F32.float) :
  F32.geb X Libc.PI_DOUBLE = false -> F32.ltb X F32.pzero = false ->
  Libc.sinf (S fuel) X = Libc.sinf 1 X.
Proof.
  intros Hdown Hup.
  unfold Libc.sinf, Libc.sinf_reduce_down.
  rewrite !(@while_skip _ (fun Y => F32.geb Y Libc.PI_DOUBLE) _ X Hdown).
  cbn [obind]. unfold Libc.sinf_reduce_up.
  rewrite !(@while_skip _ (fun Y => F32.ltb Y F32.pzero) _ X Hup).
  reflexivity.
Qed.

(** The inputs of the repository's own comparison: rotations by 0.7 rad
    about X and by 1.3 rad about Y.  On them the SSE2 body and the generic
    loops of the 4x4 product agree bit for bit. *)
Lemma mat4_mul_paths_agree_on_tested_input (fuel : nat) :
  match mat4_rotate_x (S fuel) (F32.of_dec 7 (-1)),
        mat4_rotate_y (S fuel) (F32.of_dec 13 (-1)) with
  | Some A, Some B => mat4_mul_sse2 A B = mat_mul 4 A B
  | _, _ => False
  end.
Proof.
  unfold mat4_rotate_x, mat4_rotate_y, Libc.cosf.
  rewrite !(sinf_in_range fuel) by (vm_compute; reflexivity).
  vm_compute. reflexivity.
Qed.

(** C1 (the code departs from it). With the ceiling forced to [none] the
    generic loops add the four products from left to right, starting from
    zero; the SSE2 bodies add them pairwise, (p0+p1)+(p2+p3).  On
    (2^24,0,1,1).(1,1,1,1) the scalar path returns 2^24 and the SSE2 path
    2^24+2, and the 4x4 products differ in the same way. *)
Theorem dispatch_paths_differ :
  vec4_dot Simd.x86_64 Simd.none dot_a dot_b = f32 16777216 /\
  vec4_dot Simd.x86_64 Simd.sse2 dot_a dot_b = f32 16777218 /\
  vec4_dot Simd.x86_64 Simd.avx2 dot_a dot_b = f32 16777218 /\
  mget (mat4_mul Simd.x86_64 Simd.none mul_A mul_B) 0 0 = f32 16777216 /\
  mget (mat4_mul Simd.x86_64 Simd.sse2 mul_A mul_B) 0 0 = f32 16777218 /\
  mat4_mul Simd.x86_64 Simd.none mul_A mul_B <>
    mat4_mul Simd.x86_64 Simd.sse2 mul_A mul_B.
Proof.
  vm_compute. repeat split; discriminate.
Qed.

(** ** Facts on binary32 arithmetic *)

Section RoundingFacts.
Variables p em : Z.

(** Rounding does not look at the sign. *)
Lemma binary_round_aux_opp (s : bool) (m e : Z) (l : location) :
  SFopp (binary_round_aux p em s m e l) = binary_round_aux p em (negb s) m e l.
Proof.
  unfold binary_round_aux.
  destruct (shr_fexp p em m e l) as [mrs' e'].
  destruct (shr_fexp p em _ e' loc_Exact) as [mrs'' e''].
  destruct (shr_m mrs''); try reflexivity.
  destruct (Z.leb e'' (em - p)); reflexivity.
Qed.


Lemma shr_1_nonneg (mrs : shr_record) :
  0 <= shr_m mrs -> 0 <= shr_m (shr_1 mrs).
Proof.
  destruct mrs as [m r s]. destruct m as [|[q|q|]|q]; simpl; lia.
Qed.

Lemma iter_shr_1_nonneg (n : positive) (mrs : shr_record) :
  0 <= shr_m mrs -> 0 <= shr_m (iter_pos shr_1 n mrs).
Proof.
  revert mrs. induction n as [n IH|n IH|]; intros mrs Hm; simpl.
  - apply IH, IH, shr_1_nonneg, Hm.
  - apply IH, IH, Hm.
  - apply shr_1_nonneg, Hm.
Qed.

Lemma shr_fexp_nonneg (m e : Z) (l : location) :
  0 <= m -> 0 <= shr_m (fst (shr_fexp p em m e l)).
Proof.
  intros Hm. unfold shr_fexp, shr.
  assert (H0 : 0 <= shr_m (shr_record_of_loc m l))
    by (destruct l as [|[| |]]; exact Hm).
  destruct (fexp p em (Zdigits2 m + e) - e) as [|n|n]; simpl; auto.
  apply iter_shr_1_nonneg, H0.
Qed.

Lemma round_nearest_even_nonneg (m : Z) (l : location) :
  0 <= m -> 0 <= round_nearest_even m l.
Proof.
  intros Hm. destruct l as [|[| |]]; simpl; try lia.
  destruct (Z.even m); lia.
Qed.

Lemma binary_round_aux_signed (s : bool) (m e : Z) (l : location) :
  0 <= m -> signed s (binary_round_aux p em s m e l).
Proof.
  intros Hm. unfold binary_round_aux.
  pose proof (shr_fexp_nonneg e l Hm) as H1.
  destruct (shr_fexp p em m e l) as [mrs' e']. simpl in H1.
  pose proof (shr_fexp_nonneg e' loc_Exact
                (round_nearest_even_nonneg (loc_of_shr_record mrs') H1)) as H2.
  destruct (shr_fexp p em _ e' loc_Exact) as [mrs'' e'']. simpl in H2.
  destruct (shr_m mrs'') as [|q|q]; simpl; try reflexivity; try lia.
  destruct (Z.leb e'' (em - p)); reflexivity.
Qed.

Lemma binary_round_signed (s : bool) (m : positive) (e : Z) :
  signed s (binary_round p em s m e).
Proof.
  unfold binary_round.
  destruct (shl_align m e _) as [mz ez].
  apply binary_round_aux_signed. lia.
Qed.

End RoundingFacts.

Module F32Facts.
Import F32.

Lemma mul_comm (x y : float) : mul x y = mul y x.
Proof.
  unfold mul, SFmul.
  destruct x as [sx|sx| |sx mx ex], y as [sy|sy| |sy my ey];
    try reflexivity; try (rewrite (xorb_comm sx sy); reflexivity).
  rewrite (xorb_comm sx sy), (Pos.mul_comm mx my), (Z.add_comm ex ey).
  reflexivity.
Qed.

Lemma xorb_negb_r (a b : bool) : xorb a (negb b) = negb (xorb a b).
Proof. destruct a, b; reflexivity. Qed.

Lemma mul_neg_r (x y : float) : mul x (neg y) = neg (mul x y).
Proof.
  unfold mul, neg, SFmul.
  destruct x as [sx|sx| |sx mx ex], y as [sy|sy| |sy my ey];
    try reflexivity; try (simpl; rewrite xorb_negb_r; reflexivity).
  simpl SFopp at 1. rewrite binary_round_aux_opp, xorb_negb_r. reflexivity.
Qed.

Lemma mul_neg_l (x y : float) : mul (neg x) y = neg (mul x y).
Proof.
  rewrite (mul_comm (neg x) y), mul_neg_r, (mul_comm y x). reflexivity.
Qed.

Lemma mul_self_signed (x : float) :
  is_finite x = true -> signed false (mul x x).
Proof.
  unfold mul, SFmul.
  destruct x as [s|s| |s m e]; try discriminate; intros _; cbv beta iota.
  - simpl. apply xorb_nilpotent.
  - rewrite xorb_nilpotent. apply binary_round_aux_signed. lia.
Qed.

Lemma mul_finite_l (x y : float) :
  is_finite (mul x y) = true -> is_finite x = true.
Proof.
  unfold mul, SFmul.
  destruct x as [sx|sx| |sx mx ex], y as [sy|sy| |sy my ey];
    simpl; auto.
Qed.

Lemma mul_finite_r (x y : float) :
  is_finite (mul x y) = true -> is_finite y = true.
Proof.
  rewrite mul_comm. apply mul_finite_l.
Qed.

Lemma sub_diag (x : float) : is_finite x = true -> sub x x = pzero.
Proof.
  unfold sub, SFsub.
  destruct x as [s|s| |s m e]; try discriminate; intros _; cbv beta iota zeta.
  - destruct s; reflexivity.
  - rewrite Z.sub_diag. reflexivity.
Qed.


Lemma add_comm (x y : float) : add x y = add y x.
Proof.
  unfold add, SFadd.
  destruct x as [sx|sx| |sx mx ex], y as [sy|sy| |sy my ey];
    try reflexivity; try (destruct sx, sy; reflexivity).
  rewrite (Z.min_comm ex ey), Z.add_comm. reflexivity.
Qed.


Lemma add_signed (x y : float) :
  signed false x -> signed false y -> signed false (add x y).
Proof.
  unfold add, SFadd.
  destruct x as [sx|sx| |sx mx ex], y as [sy|sy| |sy my ey];
    simpl; intros Hx Hy; subst; try reflexivity; try contradiction.
  apply binary_round_signed.
Qed.





Lemma eqb_refl_signed (s : bool) (x : float) : signed s x -> eqb x x = true.
Proof.
  unfold eqb, SFeqb, SFcompare.
  destruct x as [sx|sx| |sx m e]; simpl; intros Hx; try contradiction.
  - reflexivity.
  - destruct sx; reflexivity.
  - rewrite Z.compare_refl.
    change (Pos.compare_cont Eq m m) with (Pos.compare m m).
    rewrite Pos.compare_refl. destruct sx; reflexivity.
Qed.

End F32Facts.

(** ** C6: a quaternion times its conjugate *)

Module QuatFacts.
Import F32 F32Facts.






End QuatFacts.




(** The scalar half needs no more than finite components: it holds at the
    quaternion whose vector half fails. *)
Lemma quat_mul_conj_scalar_overflow :
  qw (quat_mul q_big (quat_conj q_big)) = quat_dot q_big q_big /\
  quat_dot q_big q_big = S754_infinity false.
Proof. split; reflexivity. Qed.

(** The vector half needs the unfused evaluation: at (0.1f,-0.2f,0.3f; 0.7f)
    all products are finite and the vector part is (+0,+0,+0) as the
    expressions are written, while the fused evaluation leaves the rounding
    errors of the products, of the order of 1e-9, and the comparison with the
    zero vector fails. *)
Lemma quat_mul_conj_fused :
  cross_products_finite q_tenths = true /\
  qv (quat_mul q_tenths (quat_conj q_tenths))
  = [F32.pzero; F32.pzero; F32.pzero] /\
  qv (quat_mul_fused q_tenths (quat_conj q_tenths))
  = [ S754_finite false 16106128 (-55); S754_finite true 16106128 (-54);
      S754_finite false 16106128 (-52) ] /\
  vec_eqb 3 (qv (quat_mul_fused q_tenths (quat_conj q_tenths))) (vec_init 3)
  = false.
Proof. vm_compute. repeat split. Qed.

(** [f32_fma] rounds once: it agrees with the product followed by the sum
    where the product is exact, and keeps what the rounded product drops. *)
Lemma f32_fma_samples :
  f32_fma (f32 3) (f32 5) (f32 7) = f32 22 /\
  f32_fma (f32 3) (f32 5) (f32 (-15)) = F32.pzero /\
  f32_fma (f32 (2 ^ 24)) (f32 (2 ^ 24)) (f32 1) = f32 (2 ^ 48) /\
  f32_fma (f32 4097) (f32 4097) (f32 (-16785408)) = f32 1 /\
  F32.add (F32.mul (f32 4097) (f32 4097)) (f32 (-16785408)) = f32 0 /\
  f32_fma (f32 (2 ^ 100)) (f32 (2 ^ 100)) (S754_infinity true)
  = S754_infinity true.
Proof. vm_compute. repeat split. Qed.

(** ** Stores: vectors and matrices as indexed containers *)

Lemma for_ind {St : Type} (P : nat -> St -> Prop) (n : nat)
    (body : nat -> St -> St) (s : St) :
  P 0%nat s ->
  (forall i acc, (i < n)%nat -> P i acc -> P (S i) (body i acc)) ->
  P n (for_ n body s).
Proof.
  intros H0 Hstep. induction n as [|n IH].
  - exact H0.
  - rewrite for_succ. apply Hstep; [lia|]. apply IH.
    intros i acc Hi. apply Hstep. lia.
Qed.

Lemma for_ext {St : Type} (n : nat) (body body' : nat -> St -> St) (s : St) :
  (forall i acc, (i < n)%nat -> body i acc = body' i acc) ->
  for_ n body s = for_ n body' s.
Proof.
  intros Hb. induction n as [|n IH].
  - reflexivity.
  - rewrite !for_succ, IH by (intros; apply Hb; lia). apply Hb. lia.
Qed.

Section StoreFacts.
Context {T : Type} `{Scalar T}.

Lemma vec_init_length (N : nat) : length (vec_init N) = N.
Proof. apply repeat_length. Qed.

Lemma vset_length (V : @vec T) (i : nat) (x : T) : length (vset V i x) = length V.
Proof.
  revert i. induction V as [|a V IH]; intros [|i]; simpl; auto.
Qed.

Lemma vget_vset (V : @vec T) (i j : nat) (x : T) :
  (i < length V)%nat ->
  vget (vset V i x) j = if Nat.eqb j i then x else vget V j.
Proof.
  unfold vget. revert i j.
  induction V as [|a V IH]; intros [|i] [|j] Hi; simpl in *; try lia; auto.
  apply IH. lia.
Qed.

Lemma vec_ext (V V' : @vec T) :
  length V = length V' ->
  (forall j, (j < length V)%nat -> vget V j = vget V' j) ->
  V = V'.
Proof.
  intros Hlen Hget. apply (nth_ext V V' s_zero s_zero Hlen). exact Hget.
Qed.

(** A loop that stores [f i] at index [i] fills the vector with [f]. *)
Lemma vec_fill (N : nat) (f : nat -> T) :
  length (for_ N (fun i res => vset res i (f i)) (vec_init N)) = N /\
  forall j, (j < N)%nat ->
    vget (for_ N (fun i res => vset res i (f i)) (vec_init N)) j = f j.
Proof.
  assert (HP : let V := for_ N (fun i res => vset res i (f i)) (vec_init N) in
               length V = N /\
               forall j, (j < N)%nat ->
                 vget V j = if Nat.ltb j N then f j else s_zero).
  { apply for_ind with
      (P := fun n V => length V = N /\
              forall j, (j < N)%nat ->
                vget V j = if Nat.ltb j n then f j else s_zero).
    - split; [apply vec_init_length|]. intros j _. apply vget_vec_init.
    - intros i acc Hi [Hlen Hget]. split; [rewrite vset_length; exact Hlen|].
      intros j Hj. rewrite vget_vset by lia.
      destruct (Nat.eqb_spec j i) as [->|Hne].
      + destruct (Nat.ltb_spec i (S i)); [reflexivity|lia].
      + rewrite (Hget j Hj).
        destruct (Nat.ltb_spec j i), (Nat.ltb_spec j (S i)); auto; lia. }
  destruct HP as [Hlen Hget]. split; [exact Hlen|].
  intros j Hj. rewrite (Hget j Hj).
  destruct (Nat.ltb_spec j N); [reflexivity|lia].
Qed.

Lemma mset_col_length (M : @mat T) (c : nat) (V : @vec T) :
  length (mset_col M c V) = length M.
Proof.
  revert c. induction M as [|a M IH]; intros [|c]; simpl; auto.
Qed.

Lemma mcol_mset_col (M : @mat T) (c c' : nat) (V : @vec T) :
  (c < length M)%nat ->
  mcol (mset_col M c V) c' = if Nat.eqb c' c then V else mcol M c'.
Proof.
  unfold mcol. revert c c'.
  induction M as [|a M IH]; intros [|c] [|c'] Hc; simpl in *; try lia; auto.
  apply IH. lia.
Qed.

Lemma wf_mat_init (C R : nat) : wf_mat C R (mat_init C R).
Proof.
  unfold wf_mat, mat_init. split; [apply repeat_length|].
  apply Forall_forall. intros col Hin.
  apply repeat_spec in Hin. subst. apply vec_init_length.
Qed.

Lemma wf_mat_lt (C R : nat) (M : @mat T) (c : nat) :
  wf_mat C R M -> (c < C)%nat -> (c < length M)%nat.
Proof.
  intros [Hlen _] Hc. rewrite <- Hlen in Hc. exact Hc.
Qed.

Lemma wf_mcol (C R : nat) (M : @mat T) (c : nat) :
  wf_mat C R M -> (c < C)%nat -> length (mcol M c) = R.
Proof.
  intros [Hlen Hall] Hc. unfold mcol.
  rewrite Forall_forall in Hall. apply Hall, nth_In.
  rewrite <- Hlen in Hc. exact Hc.
Qed.

Lemma wf_mset_col (C R : nat) (M : @mat T) (c : nat) (V : @vec T) :
  wf_mat C R M -> length V = R -> wf_mat C R (mset_col M c V).
Proof.
  intros [Hlen Hall] HV. split; [rewrite mset_col_length; exact Hlen|].
  clear Hlen. revert c.
  induction Hall as [|a M Ha Hall IH]; intros [|c]; simpl; auto.
Qed.

Lemma wf_mset (C R : nat) (M : @mat T) (c r : nat) (x : T) :
  wf_mat C R M -> (c < C)%nat -> wf_mat C R (mset M c r x).
Proof.
  intros HM Hc. unfold mset. apply wf_mset_col; [exact HM|].
  rewrite vset_length. apply (wf_mcol HM Hc).
Qed.

Lemma mget_mset (C R : nat) (M : @mat T) (c r c' r' : nat) (x : T) :
  wf_mat C R M -> (c < C)%nat -> (r < R)%nat ->
  mget (mset M c r x) c' r' =
  if Nat.eqb c' c && Nat.eqb r' r then x else mget M c' r'.
Proof.
  intros HM Hc Hr. unfold mget, mset.
  rewrite mcol_mset_col by (apply (wf_mat_lt HM Hc)).
  destruct (Nat.eqb_spec c' c) as [->|Hne]; simpl; [|reflexivity].
  apply vget_vset. rewrite (wf_mcol HM Hc). exact Hr.
Qed.

Lemma mget_mat_init (C R c r : nat) : mget (mat_init C R) c r = s_zero.
Proof.
  unfold mget, mcol, mat_init.
  destruct (Nat.lt_ge_cases c C) as [Hc|Hc].
  - rewrite nth_repeat_lt by exact Hc. apply vget_vec_init.
  - rewrite nth_overflow by (rewrite repeat_length; exact Hc).
    unfold vget. destruct r; reflexivity.
Qed.

Lemma mat_ext (C R : nat) (M M' : @mat T) :
  wf_mat C R M -> wf_mat C R M' ->
  (forall c r, (c < C)%nat -> (r < R)%nat -> mget M c r = mget M' c r) ->
  M = M'.
Proof.
  intros HM HM' Hget.
  apply (nth_ext M M' [] []);
    [destruct HM as [E1 _], HM' as [E2 _]; exact (eq_trans E1 (eq_sym E2))|].
  intros c Hc. assert (Hc' : (c < C)%nat)
    by (destruct HM as [E _]; exact (eq_ind _ (fun n => (c < n)%nat) Hc _ E)).
  apply vec_ext.
  - change (length (mcol M c) = length (mcol M' c)).
    rewrite (wf_mcol HM Hc'), (wf_mcol HM' Hc'). reflexivity.
  - intros r Hr. apply (Hget c r Hc').
    change (r < length (mcol M c))%nat in Hr.
    rewrite (wf_mcol HM Hc') in Hr. exact Hr.
Qed.

(** Two nested loops that store [f i j] at the cell ([pc i j], [pr i j]),
    each cell being visited once: every visited cell holds its value. *)
Lemma mat_fill (A B C R : nat) (pc pr : nat -> nat -> nat)
    (f : nat -> nat -> T) (M0 : @mat T) :
  wf_mat C R M0 ->
  (forall i j, (i < A)%nat -> (j < B)%nat -> (pc i j < C)%nat /\ (pr i j < R)%nat) ->
  (forall i j i' j', (i < A)%nat -> (j < B)%nat -> (i' < A)%nat -> (j' < B)%nat ->
     pc i j = pc i' j' -> pr i j = pr i' j' -> i = i' /\ j = j') ->
  wf_mat C R
    (for_ A (fun i M => for_ B (fun j M => mset M (pc i j) (pr i j) (f i j)) M) M0) /\
  forall i j, (i < A)%nat -> (j < B)%nat ->
    mget (for_ A (fun i M =>
            for_ B (fun j M => mset M (pc i j) (pr i j) (f i j)) M) M0)
         (pc i j) (pr i j) = f i j.
Proof.
  intros HM0 Hin Hinj.
  apply for_ind with
    (P := fun n M => wf_mat C R M /\
            forall i j, (i < n)%nat -> (j < B)%nat ->
              mget M (pc i j) (pr i j) = f i j).
  - split; [exact HM0|]. intros i j Hi. lia.
  - intros i acc Hi [Hwf Hold].
    assert (Hinner :
      let M' := for_ B (fun j M => mset M (pc i j) (pr i j) (f i j)) acc in
      wf_mat C R M' /\
      (forall i' j', (i' < i)%nat -> (j' < B)%nat ->
         mget M' (pc i' j') (pr i' j') = f i' j') /\
      (forall j', (j' < B)%nat -> mget M' (pc i j') (pr i j') = f i j')).
    { apply for_ind with
        (P := fun m M' => wf_mat C R M' /\
                (forall i' j', (i' < i)%nat -> (j' < B)%nat ->
                   mget M' (pc i' j') (pr i' j') = f i' j') /\
                (forall j', (j' < m)%nat -> mget M' (pc i j') (pr i j') = f i j')).
      - split; [exact Hwf|]. split; [exact Hold|]. intros j' Hj'. lia.
      - intros j M' Hj (Hwf' & Hrows & Hcells).
        destruct (Hin i j Hi Hj) as [Hc Hr].
        split; [apply wf_mset; assumption|]. split.
        + intros i' j' Hi' Hj'. rewrite (mget_mset _ _ _ Hwf' Hc Hr).
          destruct (Nat.eqb_spec (pc i' j') (pc i j)) as [E1|]; simpl;
            [|apply Hrows; assumption].
          destruct (Nat.eqb_spec (pr i' j') (pr i j)) as [E2|];
            [|apply Hrows; assumption].
          destruct (Hinj i' j' i j) as [Ei _]; try assumption; lia.
        + intros j' Hj'. rewrite (mget_mset _ _ _ Hwf' Hc Hr).
          destruct (Nat.eqb_spec (pc i j') (pc i j)) as [E1|]; simpl;
            [|apply Hcells].
          * destruct (Nat.eqb_spec (pr i j') (pr i j)) as [E2|];
              [|apply Hcells].
            -- destruct (Hinj i j' i j) as [_ Ej]; try assumption; try lia.
               subst. reflexivity.
            -- destruct (Nat.eq_dec j' j) as [->|]; [congruence|lia].
          * destruct (Nat.eq_dec j' j) as [->|]; [congruence|lia]. }
    destruct Hinner as (Hwf' & Hrows & Hcells).
    split; [exact Hwf'|].
    intros i' j' Hi' Hj'.
    destruct (Nat.eq_dec i' i) as [->|Hne].
    + apply Hcells, Hj'.
    + apply Hrows; [lia|exact Hj'].
Qed.

End StoreFacts.
Module F32Units.
Import F32.

Lemma shr_fexp_canonical (m : positive) (e : Z) :
  canonical_mantissa prec emax m e = true ->
  shr_fexp prec emax (Zpos m) e loc_Exact
  = ({| shr_m := Zpos m; shr_r := false; shr_s := false |}, e).
Proof.
  unfold canonical_mantissa. intros Hc. apply Z.eqb_eq in Hc.
  unfold shr_fexp, Zdigits2. rewrite Hc, Z.sub_diag. reflexivity.
Qed.

Lemma digits2_shift23 (m : positive) :
  Zpos (digits2_pos (Pos.iter xO m 23)) = Zpos (digits2_pos m) + 23.
Proof.
  cbn [Pos.iter digits2_pos]. rewrite !Pos2Z.inj_succ. lia.
Qed.

Lemma mul_one_l (x : float) : f32_valid x -> mul (of_Z 1) x = x.
Proof.
  intros [Hf Hv]. destruct x as [s|s| |s m e]; try discriminate.
  - reflexivity.
  - clear Hf. simpl in Hv. unfold bounded in Hv.
    apply andb_prop in Hv. destruct Hv as [Hc He].
    change (of_Z 1) with (S754_finite false 8388608 (-23)).
    unfold mul, SFmul.
    change (xorb false s) with s.
    change (Pos.mul 8388608 m) with (Pos.iter xO m 23).
    unfold binary_round_aux.
    assert (E1 : shr_fexp prec emax (Zpos (Pos.iter xO m 23)) (-23 + e) loc_Exact
                 = ({| shr_m := Zpos m; shr_r := false; shr_s := false |}, e)).
    { unfold shr_fexp, Zdigits2. rewrite digits2_shift23.
      replace (Zpos (digits2_pos m) + 23 + (-23 + e)) with (Zpos (digits2_pos m) + e) by lia.
      unfold canonical_mantissa in Hc. apply Z.eqb_eq in Hc. rewrite Hc.
      replace (e - (-23 + e)) with 23 by lia.
      unfold shr. f_equal. lia. }
    rewrite E1. cbn [shr_m loc_of_shr_record round_nearest_even].
    rewrite (shr_fexp_canonical _ _ Hc). cbn [shr_m].
    rewrite He. reflexivity.
Qed.


Lemma mul_one_r (x : float) : f32_valid x -> mul x (of_Z 1) = x.
Proof.
  intros Hx. rewrite F32Facts.mul_comm. apply mul_one_l, Hx.
Qed.

Lemma mul_zero_l (x : float) :
  is_finite x = true -> is_zero (mul (of_Z 0) x) = true.
Proof.
  destruct x as [s|s| |s m e]; try discriminate; reflexivity.
Qed.

Lemma mul_zero_r (x : float) :
  is_finite x = true -> is_zero (mul x (of_Z 0)) = true.
Proof.
  intros Hx. rewrite F32Facts.mul_comm. apply mul_zero_l, Hx.
Qed.

Lemma add_pzero_l_any (x : float) : add pzero x = unsigned_zero x.
Proof.
  destruct x as [[|]|s| |s m e]; reflexivity.
Qed.

Lemma add_zero_r (x z : float) :
  is_zero z = true -> add (unsigned_zero x) z = unsigned_zero x.
Proof.
  destruct x as [sx|sx| |sx mx ex], z as [[|]|sz| |sz mz ez];
    try discriminate; reflexivity.
Qed.

Lemma eqb_unsigned_zero (x : float) :
  is_finite x = true -> eqb (unsigned_zero x) x = true.
Proof.
  destruct x as [sx|sx| |sx mx ex]; try discriminate; intros _.
  - reflexivity.
  - apply (@F32Facts.eqb_refl_signed sx). reflexivity.
Qed.

Lemma unsigned_zero_finite (x : float) :
  is_finite x = true -> is_finite (unsigned_zero x) = true.
Proof.
  destruct x; try discriminate; reflexivity.
Qed.

(** A sum, from +0, of terms that are all zeros but the one at index [c]
    is that term, with the sign of a zero dropped. *)
Lemma sum_single (N c : nat) (f : nat -> float) :
  (c < N)%nat ->
  (forall k, (k < N)%nat -> k <> c -> is_zero (f k) = true) ->
  for_ N (fun k s => add s (f k)) pzero = unsigned_zero (f c).
Proof.
  intros Hc Hz.
  assert (HP : for_ N (fun k s => add s (f k)) pzero
               = if Nat.ltb c N then unsigned_zero (f c) else pzero).
  { apply for_ind with
      (P := fun n s => s = if Nat.ltb c n then unsigned_zero (f c) else pzero).
    - reflexivity.
    - intros k acc Hk ->.
      destruct (Nat.ltb_spec c k) as [Hck|Hck].
      + destruct (Nat.ltb_spec c (S k)); [|lia].
        apply add_zero_r. apply Hz; lia.
      + destruct (Nat.ltb_spec c (S k)) as [Hck'|Hck'].
        * assert (k = c) by lia. subst k. apply add_pzero_l_any.
        * assert (Hzk : is_zero (f k) = true) by (apply Hz; lia).
          destruct (f k) as [[|]| | |]; try discriminate; reflexivity. }
  rewrite HP. destruct (Nat.ltb_spec c N); [reflexivity|lia].
Qed.

End F32Units.

(** ** What the loops of the kernel compute *)

Section KernelSpecs.
Context {T : Type} `{Scalar T}.

Lemma mat_identity_wf (N : nat) : wf_mat N N (mat_identity (T := T) N).
Proof.
  unfold mat_identity.
  apply (mat_fill (A := N) (B := N) (fun i _ => i) (fun _ j => j)
           (fun i j => s_of_int (if Nat.eqb i j then 1 else 0))
           (wf_mat_init N N)); intros; auto.
Qed.

Lemma mat_identity_get (N i j : nat) :
  (i < N)%nat -> (j < N)%nat ->
  mget (mat_identity N) i j = s_of_int (if Nat.eqb i j then 1 else 0).
Proof.
  unfold mat_identity.
  apply (mat_fill (A := N) (B := N) (fun i _ => i) (fun _ j => j)
           (fun i j => s_of_int (if Nat.eqb i j then 1 else 0))
           (wf_mat_init N N)); intros; auto.
Qed.

Lemma mat_mul_wf (N : nat) (A B : @mat T) : wf_mat N N (mat_mul N A B).
Proof.
  unfold mat_mul.
  apply (mat_fill (A := N) (B := N) (fun c _ => c) (fun _ r => r)
           (fun c r => for_ N (fun k sum =>
                         s_add sum (s_mul (mget A k r) (mget B c k))) s_zero)
           (wf_mat_init N N)); intros; auto.
Qed.

Lemma mat_mul_get (N : nat) (A B : @mat T) (c r : nat) :
  (c < N)%nat -> (r < N)%nat ->
  mget (mat_mul N A B) c r
  = for_ N (fun k sum => s_add sum (s_mul (mget A k r) (mget B c k))) s_zero.
Proof.
  unfold mat_mul.
  apply (mat_fill (A := N) (B := N) (fun c _ => c) (fun _ r => r)
           (fun c r => for_ N (fun k sum =>
                         s_add sum (s_mul (mget A k r) (mget B c k))) s_zero)
           (wf_mat_init N N)); intros; auto.
Qed.

Lemma mat_transpose_wf (C R : nat) (M : @mat T) :
  wf_mat R C (mat_transpose C R M).
Proof.
  unfold mat_transpose.
  apply (mat_fill (A := C) (B := R) (fun _ r => r) (fun c _ => c)
           (fun c r => mget M c r) (wf_mat_init R C)); intros; auto.
Qed.

Lemma mat_transpose_get (C R : nat) (M : @mat T) (c r : nat) :
  (c < C)%nat -> (r < R)%nat ->
  mget (mat_transpose C R M) r c = mget M c r.
Proof.
  unfold mat_transpose.
  apply (mat_fill (A := C) (B := R) (fun _ r => r) (fun c _ => c)
           (fun c r => mget M c r) (wf_mat_init R C)); intros; auto.
Qed.

Lemma mat_mul_vec_length (N : nat) (M : @mat T) (V : @vec T) :
  length (mat_mul_vec N M V) = N.
Proof.
  unfold mat_mul_vec.
  apply (vec_fill N (fun r => for_ N (fun c s =>
           s_add s (s_mul (mget M c r) (vget V c))) s_zero)).
Qed.

Lemma mat_mul_vec_get (N : nat) (M : @mat T) (V : @vec T) (r : nat) :
  (r < N)%nat ->
  vget (mat_mul_vec N M V) r
  = for_ N (fun c s => s_add s (s_mul (mget M c r) (vget V c))) s_zero.
Proof.
  unfold mat_mul_vec.
  apply (vec_fill N (fun r => for_ N (fun c s =>
           s_add s (s_mul (mget M c r) (vget V c))) s_zero)).
Qed.

Lemma vec_mul_mat_length (N : nat) (V : @vec T) (M : @mat T) :
  length (vec_mul_mat N V M) = N.
Proof.
  unfold vec_mul_mat.
  apply (vec_fill N (fun c => for_ N (fun k s =>
           s_add s (s_mul (vget V k) (mget M c k))) s_zero)).
Qed.

Lemma vec_mul_mat_get (N : nat) (V : @vec T) (M : @mat T) (c : nat) :
  (c < N)%nat ->
  vget (vec_mul_mat N V M) c
  = for_ N (fun k s => s_add s (s_mul (vget V k) (mget M c k))) s_zero.
Proof.
  unfold vec_mul_mat.
  apply (vec_fill N (fun c => for_ N (fun k s =>
           s_add s (s_mul (vget V k) (mget M c k))) s_zero)).
Qed.

End KernelSpecs.
(** ** Matrices: identity, transpose, products *)

Lemma valid_vget (V : @vec F32.float) (k : nat) :
  Forall f32_valid V -> (k < length V)%nat -> f32_valid (vget V k).
Proof.
  intros HV Hk. unfold vget.
  apply (proj1 (Forall_nth f32_valid V) HV k F32.pzero Hk).
Qed.

Lemma valid_mget (C R : nat) (M : @mat F32.float) (c r : nat) :
  wf_mat C R M -> Forall (Forall f32_valid) M ->
  (c < C)%nat -> (r < R)%nat -> f32_valid (mget M c r).
Proof.
  intros HM HV Hc Hr. unfold mget. apply valid_vget.
  - unfold mcol.
    apply (proj1 (Forall_nth (Forall f32_valid) M) HV c [] (wf_mat_lt HM Hc)).
  - rewrite (wf_mcol HM Hc). exact Hr.
Qed.

Lemma vget_map_unsigned_zero (V : @vec F32.float) (j : nat) :
  vget (map unsigned_zero V) j = unsigned_zero (vget V j).
Proof.
  exact (map_nth unsigned_zero V F32.pzero j).
Qed.

Lemma mget_map_unsigned_zero (M : @mat F32.float) (c r : nat) :
  mget (map (map unsigned_zero) M) c r = unsigned_zero (mget M c r).
Proof.
  change (vget (nth c (map (map unsigned_zero) M) (map unsigned_zero [])) r
          = unsigned_zero (vget (nth c M []) r)).
  rewrite (map_nth (map unsigned_zero)). apply vget_map_unsigned_zero.
Qed.

Lemma wf_map_unsigned_zero (C R : nat) (M : @mat F32.float) :
  wf_mat C R M -> wf_mat C R (map (map unsigned_zero) M).
Proof.
  intros [Hlen Hall]. split.
  - rewrite length_map. exact Hlen.
  - apply Forall_map. eapply Forall_impl; [|exact Hall].
    intros col Hcol. simpl. rewrite length_map. exact Hcol.
Qed.

(** X1. For every element type and size N, [mat_identity] is an N x N matrix
    whose entry in column i, row j (both below N) is T(1) when i = j and T(0)
    otherwise. *)
Theorem mat_identity_entries (T : Type) (ST : Scalar T) (N i j : nat) :
  (i < N)%nat -> (j < N)%nat ->
  wf_mat N N (mat_identity (T := T) N) /\
  mget (mat_identity N) i j = s_of_int (if Nat.eqb i j then 1 else 0).
Proof.
  intros Hi Hj. split; [apply mat_identity_wf|apply mat_identity_get; assumption].
Qed.

Lemma mat_identity_entries_witness :
  (1 < 4)%nat /\ (2 < 4)%nat /\
  mget (mat_identity (T := F32.float) 4) 1 2 = F32.of_Z 0.
Proof.
  assert (H1 : (1 < 4)%nat) by (repeat constructor).
  assert (H2 : (2 < 4)%nat) by (repeat constructor).
  split; [exact H1|]. split; [exact H2|].
  exact (proj2 (@mat_identity_entries _ _ 4%nat 1%nat 2%nat H1 H2)).
Defined.

(** X2. For every C x R matrix M, [mat_transpose] gives an R x C matrix, and
    transposing twice gives M back. *)
Theorem mat_transpose_involutive (T : Type) (ST : Scalar T) (C R : nat)
    (M : @mat T) :
  wf_mat C R M ->
  wf_mat R C (mat_transpose C R M) /\
  mat_transpose R C (mat_transpose C R M) = M.
Proof.
  intros HM. split; [apply mat_transpose_wf|].
  apply (mat_ext (mat_transpose_wf R C _) HM).
  intros c r Hc Hr.
  rewrite (mat_transpose_get (mat_transpose C R M) Hr Hc).
  apply mat_transpose_get; assumption.
Qed.

Lemma mat_transpose_involutive_witness :
  let M : @mat F32.float := [[f32 1; f32 2; f32 3]; [f32 4; f32 5; f32 6]] in
  wf_mat 2 3 M /\
  mat_transpose 2 3 M = [[f32 1; f32 4]; [f32 2; f32 5]; [f32 3; f32 6]] /\
  mat_transpose 3 2 (mat_transpose 2 3 M) = M.
Proof.
  intros M.
  assert (HM : wf_mat 2 3 M) by (split; [reflexivity|repeat constructor]).
  split; [exact HM|]. split; [reflexivity|].
  exact (proj2 (@mat_transpose_involutive _ _ 2%nat 3%nat M HM)).
Defined.

(** X3. For float matrices A and B without NaN entries, at every size, the
    transpose of the product is the product of the transposes in reverse
    order, bit for bit: the sums run over the same index in the same order
    and only the factors of each product swap. *)
Theorem mat_transpose_mul (N : nat) (A B : @mat F32.float) :
  nan_free_mat A -> nan_free_mat B ->
  mat_transpose N N (mat_mul N A B)
  = mat_mul N (mat_transpose N N B) (mat_transpose N N A).
Proof.
  intros _ _.
  apply (mat_ext (mat_transpose_wf N N _) (mat_mul_wf N _ _)).
  intros c r Hc Hr.
  rewrite (mat_transpose_get (mat_mul N A B) Hr Hc).
  rewrite (mat_mul_get A B Hr Hc), (mat_mul_get _ _ Hc Hr).
  apply for_ext. intros k acc Hk.
  rewrite (mat_transpose_get B Hr Hk), (mat_transpose_get A Hk Hc).
  simpl. rewrite (F32Facts.mul_comm (mget A k c) (mget B r k)). reflexivity.
Qed.

Lemma mat_transpose_mul_witness :
  let A : @mat F32.float := [[f32 1; f32 2]; [f32 3; S754_infinity false]] in
  let B : @mat F32.float := [[f32 1; f32 0]; [f32 5; f32 (-6)]] in
  nan_free_mat A /\ nan_free_mat B /\
  mat_mul 2 A B = [[f32 1; S754_nan]; [f32 (-13); S754_infinity true]] /\
  mat_transpose 2 2 (mat_mul 2 A B)
  = mat_mul 2 (mat_transpose 2 2 B) (mat_transpose 2 2 A).
Proof.
  intros A B.
  assert (HA : nan_free_mat A) by (repeat constructor).
  assert (HB : nan_free_mat B) by (repeat constructor).
  split; [exact HA|]. split; [exact HB|]. split; [reflexivity|].
  exact (@mat_transpose_mul 2%nat A B HA HB).
Defined.

(** X4. For a float vector V and a float matrix M without NaN entries, the
    row-vector product [V * M] is, bit for bit, the matrix-vector product of
    the transpose of M with V. *)
Theorem vec_mul_mat_transpose (N : nat) (V : @vec F32.float) (M : @mat F32.float) :
  nan_free V -> nan_free_mat M ->
  vec_mul_mat N V M = mat_mul_vec N (mat_transpose N N M) V.
Proof.
  intros _ _.
  apply vec_ext.
  - rewrite vec_mul_mat_length, mat_mul_vec_length. reflexivity.
  - intros c Hc. rewrite vec_mul_mat_length in Hc.
    rewrite (vec_mul_mat_get V M Hc), (mat_mul_vec_get _ V Hc).
    apply for_ext. intros k acc Hk.
    rewrite (mat_transpose_get M Hc Hk).
    simpl. rewrite (F32Facts.mul_comm (vget V k) (mget M c k)). reflexivity.
Qed.

Lemma vec_mul_mat_transpose_witness :
  let V : @vec F32.float := [f32 1; f32 (-2)] in
  let M : @mat F32.float := [[f32 1; f32 2]; [f32 3; f32 4]] in
  nan_free V /\ nan_free_mat M /\
  vec_mul_mat 2 V M = [f32 (-3); f32 (-5)] /\
  vec_mul_mat 2 V M = mat_mul_vec 2 (mat_transpose 2 2 M) V.
Proof.
  intros V M.
  assert (HV : nan_free V) by (repeat constructor).
  assert (HM : nan_free_mat M) by (repeat constructor).
  split; [exact HV|]. split; [exact HM|]. split; [reflexivity|].
  exact (@vec_mul_mat_transpose 2%nat V M HV HM).
Defined.

(** ** The identity matrix is neutral, up to the sign of zero *)

Lemma identity_row_sum (N r : nat) (g : nat -> F32.float) :
  (r < N)%nat ->
  (forall k, (k < N)%nat -> f32_valid (g k)) ->
  for_ N (fun c s =>
    F32.add s (F32.mul (mget (mat_identity (T := F32.float) N) c r) (g c)))
    F32.pzero
  = unsigned_zero (g r).
Proof.
  intros Hr Hg.
  rewrite (F32Units.sum_single
             (fun c => F32.mul (mget (mat_identity (T := F32.float) N) c r) (g c))
             Hr).
  - rewrite (mat_identity_get (T := F32.float) Hr Hr), Nat.eqb_refl.
    change (s_of_int 1) with (F32.of_Z 1).
    rewrite (F32Units.mul_one_l (Hg r Hr)). reflexivity.
  - intros k Hk Hne.
    rewrite (mat_identity_get (T := F32.float) Hk Hr).
    destruct (Nat.eqb_spec k r); [contradiction|].
    apply F32Units.mul_zero_l, (Hg k Hk).
Qed.

Lemma identity_col_sum (N c : nat) (g : nat -> F32.float) :
  (c < N)%nat ->
  (forall k, (k < N)%nat -> f32_valid (g k)) ->
  for_ N (fun k s =>
    F32.add s (F32.mul (g k) (mget (mat_identity (T := F32.float) N) c k)))
    F32.pzero
  = unsigned_zero (g c).
Proof.
  intros Hc Hg.
  rewrite (F32Units.sum_single
             (fun k => F32.mul (g k) (mget (mat_identity (T := F32.float) N) c k))
             Hc).
  - rewrite (mat_identity_get (T := F32.float) Hc Hc), Nat.eqb_refl.
    change (s_of_int 1) with (F32.of_Z 1).
    rewrite (F32Units.mul_one_r (Hg c Hc)). reflexivity.
  - intros k Hk Hne.
    rewrite (mat_identity_get (T := F32.float) Hc Hk).
    destruct (Nat.eqb_spec c k); [congruence|].
    apply F32Units.mul_zero_r, (Hg k Hk).
Qed.

Lemma vec_eqb_unsigned_zero (N : nat) (V : @vec F32.float) :
  length V = N -> Forall f32_valid V ->
  vec_eqb N (map unsigned_zero V) V = true.
Proof.
  intros Hlen HV. unfold vec_eqb. apply forallb_forall.
  intros i Hi. apply in_seq in Hi.
  rewrite vget_map_unsigned_zero.
  apply F32Units.eqb_unsigned_zero.
  apply (valid_vget HV). lia.
Qed.

(** X5. For a float vector V of N finite canonical components, the
    identity matrix times V is V with every -0.0f replaced by +0.0f; it
    compares equal to V under operator==. *)
Theorem mat_mul_vec_identity (N : nat) (V : @vec F32.float) :
  length V = N -> Forall f32_valid V ->
  mat_mul_vec N (mat_identity N) V = map unsigned_zero V /\
  vec_eqb N (mat_mul_vec N (mat_identity N) V) V = true.
Proof.
  intros Hlen HV.
  assert (E : mat_mul_vec N (mat_identity N) V = map unsigned_zero V).
  { apply vec_ext.
    - rewrite mat_mul_vec_length, length_map. symmetry. exact Hlen.
    - intros r Hr. rewrite mat_mul_vec_length in Hr.
      rewrite (mat_mul_vec_get _ V Hr), vget_map_unsigned_zero.
      apply (identity_row_sum (fun c => vget V c) Hr).
      intros k Hk. apply (valid_vget HV). lia. }
  split; [exact E|]. rewrite E. apply vec_eqb_unsigned_zero; assumption.
Qed.

Lemma mat_mul_vec_identity_witness :
  let V : @vec F32.float := [f32 3; F32.neg F32.pzero; F32.of_dec 7 (-1)] in
  length V = 3%nat /\ Forall f32_valid V /\
  mat_mul_vec 3 (mat_identity 3) V = [f32 3; F32.pzero; F32.of_dec 7 (-1)].
Proof.
  intros V.
  assert (H1 : length V = 3%nat) by reflexivity.
  assert (H2 : Forall f32_valid V) by (repeat constructor).
  split; [exact H1|]. split; [exact H2|].
  exact (proj1 (mat_mul_vec_identity H1 H2)).
Defined.

(** X6. For an N x N float matrix A of finite canonical entries, A times
    the identity and the identity times A are both A with every -0.0f
    replaced by +0.0f; each compares equal to A under operator==. *)
Theorem mat_mul_identity (N : nat) (A : @mat F32.float) :
  wf_mat N N A -> Forall (Forall f32_valid) A ->
  mat_mul N A (mat_identity N) = map (map unsigned_zero) A /\
  mat_mul N (mat_identity N) A = map (map unsigned_zero) A /\
  mat_eqb N N (mat_mul N A (mat_identity N)) A = true /\
  mat_eqb N N (mat_mul N (mat_identity N) A) A = true.
Proof.
  intros HA HV.
  assert (E1 : mat_mul N A (mat_identity N) = map (map unsigned_zero) A).
  { apply (mat_ext (mat_mul_wf N _ _) (wf_map_unsigned_zero HA)).
    intros c r Hc Hr.
    rewrite (mat_mul_get A (mat_identity N) Hc Hr), mget_map_unsigned_zero.
    apply (identity_col_sum (fun k => mget A k r) Hc).
    intros k Hk. apply (valid_mget HA HV Hk Hr). }
  assert (E2 : mat_mul N (mat_identity N) A = map (map unsigned_zero) A).
  { apply (mat_ext (mat_mul_wf N _ _) (wf_map_unsigned_zero HA)).
    intros c r Hc Hr.
    rewrite (mat_mul_get (mat_identity N) A Hc Hr), mget_map_unsigned_zero.
    apply (identity_row_sum (fun k => mget A c k) Hr).
    intros k Hk. apply (valid_mget HA HV Hc Hk). }
  assert (E3 : mat_eqb N N (map (map unsigned_zero) A) A = true).
  { unfold mat_eqb. apply forallb_forall. intros c Hc. apply in_seq in Hc.
    apply forallb_forall. intros r Hr. apply in_seq in Hr.
    rewrite mget_map_unsigned_zero.
    apply F32Units.eqb_unsigned_zero.
    apply (valid_mget (C := N) (R := N) HA HV); lia. }
  rewrite E1, E2. repeat split; auto.
Qed.

Lemma mat_mul_identity_witness :
  let A : @mat F32.float := [[f32 1; f32 2]; [F32.neg F32.pzero; f32 4]] in
  wf_mat 2 2 A /\ Forall (Forall f32_valid) A /\
  mat_mul 2 A (mat_identity 2) = [[f32 1; f32 2]; [F32.pzero; f32 4]].
Proof.
  intros A.
  assert (H1 : wf_mat 2 2 A) by (split; [reflexivity|repeat constructor]).
  assert (H2 : Forall (Forall f32_valid) A) by (repeat constructor).
  split; [exact H1|]. split; [exact H2|].
  exact (proj1 (mat_mul_identity H1 H2)).
Defined.

(** ** Vectors: componentwise operations, comparisons *)

Lemma compare_antisym (x y : F32.float) :
  SFcompare y x = option_map CompOpp (SFcompare x y).
Proof.
  destruct x as [sx|sx| |sx mx ex], y as [sy|sy| |sy my ey];
    try reflexivity;
    try (destruct sx; reflexivity); try (destruct sy; reflexivity);
    try (destruct sx, sy; reflexivity).
  assert (HP : Pos.compare_cont Eq my mx = CompOpp (Pos.compare_cont Eq mx my))
    by (symmetry; apply (Pos.compare_cont_antisym mx my Eq)).
  unfold SFcompare. rewrite HP, (Z.compare_antisym ex ey).
  destruct sx, sy, (Z.compare ex ey), (Pos.compare_cont Eq mx my); reflexivity.
Qed.

Lemma not_ltb_leb (x y : F32.float) :
  F32.is_nan x = false -> F32.is_nan y = false ->
  F32.ltb x y = false -> F32.leb y x = true.
Proof.
  unfold F32.ltb, F32.leb, SFltb, SFleb. intros Hx Hy.
  rewrite (compare_antisym x y).
  destruct (SFcompare x y) as [[| |]|] eqn:E; simpl; auto; try discriminate.
  destruct x, y; simpl in *; discriminate.
Qed.

Lemma leb_refl (x : F32.float) : F32.is_nan x = false -> F32.leb x x = true.
Proof.
  intros Hx. pose proof (compare_antisym x x) as E.
  unfold F32.leb, SFleb.
  destruct (SFcompare x x) as [[| |]|] eqn:E'; simpl in E; auto; try discriminate.
  destruct x; simpl in *; discriminate.
Qed.

Lemma eqb_self (x : F32.float) : F32.eqb x x = negb (F32.is_nan x).
Proof.
  pose proof (compare_antisym x x) as E.
  unfold F32.eqb, SFeqb.
  destruct (SFcompare x x) as [[| |]|] eqn:E'; simpl in E;
    try discriminate; destruct x; simpl in *; try reflexivity; try discriminate.
Qed.

Section VecSpecs.
Context {T : Type} `{Scalar T}.

Lemma vec_add_get (N : nat) (A B : @vec T) (j : nat) :
  (j < N)%nat -> vget (vec_add N A B) j = s_add (vget A j) (vget B j).
Proof. apply (vec_fill N (fun i => s_add (vget A i) (vget B i))). Qed.

Lemma vec_add_length (N : nat) (A B : @vec T) : length (vec_add N A B) = N.
Proof. apply (vec_fill N (fun i => s_add (vget A i) (vget B i))). Qed.

Lemma vec_sub_get (N : nat) (A B : @vec T) (j : nat) :
  (j < N)%nat -> vget (vec_sub N A B) j = s_sub (vget A j) (vget B j).
Proof. apply (vec_fill N (fun i => s_sub (vget A i) (vget B i))). Qed.

Lemma vec_sub_length (N : nat) (A B : @vec T) : length (vec_sub N A B) = N.
Proof. apply (vec_fill N (fun i => s_sub (vget A i) (vget B i))). Qed.

Lemma vec_scale_get (N : nat) (V : @vec T) (S : T) (j : nat) :
  (j < N)%nat -> vget (vec_scale N V S) j = s_mul (vget V j) S.
Proof. apply (vec_fill N (fun i => s_mul (vget V i) S)). Qed.

Lemma vec_scale_length (N : nat) (V : @vec T) (S : T) :
  length (vec_scale N V S) = N.
Proof. apply (vec_fill N (fun i => s_mul (vget V i) S)). Qed.

Lemma vec_neg_get (N : nat) (V : @vec T) (j : nat) :
  (j < N)%nat -> vget (vec_neg N V) j = s_neg (vget V j).
Proof. apply (vec_fill N (fun i => s_neg (vget V i))). Qed.

Lemma vec_neg_length (N : nat) (V : @vec T) : length (vec_neg N V) = N.
Proof. apply (vec_fill N (fun i => s_neg (vget V i))). Qed.

Lemma vec_min_get (N : nat) (A B : @vec T) (j : nat) :
  (j < N)%nat ->
  vget (vec_min N A B) j
  = if s_ltb (vget A j) (vget B j) then vget A j else vget B j.
Proof.
  apply (vec_fill N (fun i =>
           if s_ltb (vget A i) (vget B i) then vget A i else vget B i)).
Qed.

Lemma vec_max_get (N : nat) (A B : @vec T) (j : nat) :
  (j < N)%nat ->
  vget (vec_max N A B) j
  = if s_ltb (vget B j) (vget A j) then vget A j else vget B j.
Proof.
  apply (vec_fill N (fun i =>
           if s_ltb (vget B i) (vget A i) then vget A i else vget B i)).
Qed.

End VecSpecs.

Lemma vec_add_comm (n : nat) (U V : @vec F32.float) :
  vec_add n U V = vec_add n V U.
Proof.
  apply vec_ext.
  - rewrite !vec_add_length. reflexivity.
  - intros j Hj. rewrite vec_add_length in Hj.
    rewrite !vec_add_get by exact Hj. apply F32Facts.add_comm.
Qed.

Lemma vec_dot_comm (n : nat) (U V : @vec F32.float) :
  vec_dot n U V = vec_dot n V U.
Proof.
  unfold vec_dot. apply for_ext. intros i acc _.
  simpl. rewrite (F32Facts.mul_comm (vget U i) (vget V i)). reflexivity.
Qed.

(** X7. On float vectors without NaN components, at every size, [vec_add]
    and [vec_dot] are commutative bit for bit, and so are [quat_add] and
    [quat_dot] on float quaternions without NaN components; infinities are
    included, and so are the results that are NaN. *)
Theorem add_dot_commute (N : nat) (A B : @vec F32.float) (P Q : quat) :
  (nan_free A -> nan_free B ->
   vec_add N A B = vec_add N B A /\
   vec_dot N A B = vec_dot N B A) /\
  (nan_free_quat P -> nan_free_quat Q ->
   quat_add P Q = quat_add Q P /\
   quat_dot P Q = quat_dot Q P).
Proof.
  split; intros _ _; split.
  - apply vec_add_comm.
  - apply vec_dot_comm.
  - unfold quat_add. rewrite (vec_add_comm 3%nat (qv P) (qv Q)).
    simpl. rewrite (F32Facts.add_comm (qw P) (qw Q)). reflexivity.
  - unfold quat_dot. rewrite (vec_dot_comm 3%nat (qv P) (qv Q)).
    simpl. rewrite (F32Facts.mul_comm (qw P) (qw Q)). reflexivity.
Qed.

Lemma add_dot_commute_witness :
  let A : @vec F32.float := [f32 1; S754_infinity false; f32 3] in
  let B : @vec F32.float := [f32 (-4); S754_infinity true; f32 0] in
  let P : quat := mk_quat [f32 1; f32 2; f32 3] (f32 4) in
  let Q : quat := mk_quat [f32 5; f32 (-6); f32 7] (f32 (-8)) in
  nan_free A /\ nan_free B /\ nan_free_quat P /\ nan_free_quat Q /\
  vec_add 3 A B = [f32 (-3); S754_nan; f32 3] /\
  vec_add 3 A B = vec_add 3 B A /\
  vec_dot 3 A B = vec_dot 3 B A /\
  quat_dot P Q = f32 (-18) /\
  quat_dot P Q = quat_dot Q P /\
  quat_add P Q = quat_add Q P.
Proof.
  intros A B P Q.
  assert (HA : nan_free A) by (repeat constructor).
  assert (HB : nan_free B) by (repeat constructor).
  assert (HP : nan_free_quat P) by (repeat constructor).
  assert (HQ : nan_free_quat Q) by (repeat constructor).
  destruct (@add_dot_commute 3%nat A B P Q) as [EV EQ].
  destruct (EV HA HB) as [E1 E2]. destruct (EQ HP HQ) as [E3 E4].
  split; [exact HA|]. split; [exact HB|]. split; [exact HP|].
  split; [exact HQ|]. split; [reflexivity|]. split; [exact E1|].
  split; [exact E2|]. split; [reflexivity|]. split; [exact E4|exact E3].
Defined.

(** X8. A float vector of N finite components minus itself is the all-zero
    vector, every component +0.0f. *)
Theorem vec_sub_self (N : nat) (V : @vec F32.float) :
  length V = N -> Forall (fun x => F32.is_finite x = true) V ->
  vec_sub N V V = vec_init N.
Proof.
  intros Hlen HV. apply vec_ext.
  - rewrite vec_sub_length, vec_init_length. reflexivity.
  - intros j Hj. rewrite vec_sub_length in Hj.
    rewrite (vec_sub_get V V Hj), vget_vec_init.
    apply F32Facts.sub_diag. unfold vget.
    apply (proj1 (Forall_nth _ V) HV j F32.pzero). lia.
Qed.

Lemma vec_sub_self_witness :
  let V : @vec F32.float := [f32 3; F32.neg F32.pzero; F32.of_dec 7 (-1)] in
  length V = 3%nat /\ Forall (fun x => F32.is_finite x = true) V /\
  vec_sub 3 V V = [F32.pzero; F32.pzero; F32.pzero].
Proof.
  intros V.
  assert (H1 : length V = 3%nat) by reflexivity.
  assert (H2 : Forall (fun x => F32.is_finite x = true) V) by (repeat constructor).
  split; [exact H1|]. split; [exact H2|].
  exact (vec_sub_self H1 H2).
Defined.

(** X9. operator== on float vectors: V == V holds exactly when none of the N
    components of V is NaN. *)
Theorem vec_eqb_refl_iff (N : nat) (V : @vec F32.float) :
  vec_eqb N V V = true <->
  forall i, (i < N)%nat -> F32.is_nan (vget V i) = false.
Proof.
  unfold vec_eqb. rewrite forallb_forall. split.
  - intros Hall i Hi.
    assert (Hin : In i (seq 0 N)) by (apply in_seq; lia).
    specialize (Hall i Hin). simpl in Hall. rewrite eqb_self in Hall.
    destruct (F32.is_nan (vget V i)); [discriminate|reflexivity].
  - intros Hnan i Hi. apply in_seq in Hi.
    simpl. rewrite eqb_self, Hnan by lia. reflexivity.
Qed.

(** X10. Component j of [vec_min] and of [vec_max] is always one of the two
    inputs' components.  A NaN in A is dropped (the result is B's component),
    a NaN in B is returned; without NaN, the minimum is below both components
    and the maximum above both. *)
Theorem vec_min_max_select (N : nat) (A B : @vec F32.float) (j : nat) :
  (j < N)%nat ->
  let a := vget A j in
  let b := vget B j in
  let lo := vget (vec_min N A B) j in
  let hi := vget (vec_max N A B) j in
  (lo = a \/ lo = b) /\ (hi = a \/ hi = b) /\
  (F32.is_nan a = true -> lo = b /\ hi = b) /\
  (F32.is_nan b = true -> F32.is_nan lo = true /\ F32.is_nan hi = true) /\
  (F32.is_nan a = false -> F32.is_nan b = false ->
     F32.leb lo a = true /\ F32.leb lo b = true /\
     F32.leb a hi = true /\ F32.leb b hi = true).
Proof.
  intros Hj a b lo hi.
  assert (Elo : lo = if F32.ltb a b then a else b)
    by (exact (vec_min_get A B Hj)).
  assert (Ehi : hi = if F32.ltb b a then a else b)
    by (exact (vec_max_get A B Hj)).
  assert (Hnan_l : forall x y, F32.is_nan x = true -> F32.ltb x y = false)
    by (intros [ | | | ] y Hx; try discriminate; reflexivity).
  assert (Hnan_r : forall x y, F32.is_nan y = true -> F32.ltb x y = false)
    by (intros x [ | | | ] Hy; try discriminate; destruct x; reflexivity).
  repeat split.
  - rewrite Elo. destruct (F32.ltb a b); auto.
  - rewrite Ehi. destruct (F32.ltb b a); auto.
  - rewrite Elo, (Hnan_l a b H). reflexivity.
  - rewrite Ehi, (Hnan_r b a H). reflexivity.
  - rewrite Elo, (Hnan_r a b H). exact H.
  - rewrite Ehi, (Hnan_l b a H). exact H.
  - rewrite Elo. destruct (F32.ltb a b) eqn:E;
      [apply leb_refl; assumption|apply not_ltb_leb; assumption].
  - rewrite Elo. destruct (F32.ltb a b) eqn:E;
      [apply ltb_leb; assumption|apply leb_refl; assumption].
  - rewrite Ehi. destruct (F32.ltb b a) eqn:E;
      [apply leb_refl; assumption|apply not_ltb_leb; assumption].
  - rewrite Ehi. destruct (F32.ltb b a) eqn:E;
      [apply ltb_leb; assumption|apply leb_refl; assumption].
Qed.

Lemma vec_min_max_select_witness :
  let A : @vec F32.float := [f32 1; S754_nan] in
  let B : @vec F32.float := [f32 2; f32 5] in
  (1 < 2)%nat /\
  vget (vec_min 2 A B) 1 = f32 5 /\ vget (vec_min 2 B A) 1 = S754_nan.
Proof.
  intros A B.
  assert (H1 : (1 < 2)%nat) by (repeat constructor).
  split; [exact H1|]. split.
  - exact (proj1 (proj1 (proj2 (proj2 (@vec_min_max_select 2%nat A B 1%nat H1)))
                    eq_refl)).
  - pose proof (proj1 (proj2 (proj2 (proj2
                 (@vec_min_max_select 2%nat B A 1%nat H1))))) as Hn.
    specialize (Hn eq_refl). destruct Hn as [Hn _].
    destruct (vget (vec_min 2 B A) 1); try discriminate. reflexivity.
Defined.

(** ** Lengths and conjugates *)

Lemma finite_vget (V : @vec F32.float) (i : nat) :
  Forall (fun x => F32.is_finite x = true) V -> F32.is_finite (vget V i) = true.
Proof.
  intros HV. unfold vget.
  destruct (Nat.lt_ge_cases i (length V)) as [Hi|Hi].
  - apply (proj1 (Forall_nth _ V) HV i _ Hi).
  - rewrite nth_overflow by exact Hi. reflexivity.
Qed.

Lemma signed_false_facts (x : F32.float) :
  signed false x -> F32.is_nan x = false /\ F32.ltb x F32.pzero = false.
Proof.
  destruct x as [s|s| |s m e]; simpl; intros Hx; subst;
    try contradiction; split; reflexivity.
Qed.

(** X11. For a float vector or quaternion of finite components, the dot
    product with itself is never NaN and never negative (it may overflow to
    +infinity), so [vec_len] and [quat_len] never take the root of a negative
    number. *)
Theorem squared_length_sign (N : nat) (V : @vec F32.float) (q : quat) :
  Forall (fun x => F32.is_finite x = true) V ->
  Forall (fun x => F32.is_finite x = true) (qw q :: qv q) ->
  (F32.is_nan (vec_dot N V V) = false /\
   F32.ltb (vec_dot N V V) F32.pzero = false) /\
  (F32.is_nan (quat_dot q q) = false /\
   F32.ltb (quat_dot q q) F32.pzero = false).
Proof.
  assert (Hdot : forall n (U : @vec F32.float),
            Forall (fun x => F32.is_finite x = true) U ->
            signed false (vec_dot n U U)).
  { intros n U HU. unfold vec_dot.
    apply for_invariant with (P := fun s : F32.float => signed false s).
    - reflexivity.
    - intros i acc _ Hacc. apply F32Facts.add_signed; [exact Hacc|].
      apply F32Facts.mul_self_signed, finite_vget, HU. }
  intros HV Hq. split.
  - apply signed_false_facts, Hdot, HV.
  - apply signed_false_facts. unfold quat_dot.
    inversion Hq as [|? ? Hw Hv]; subst.
    apply F32Facts.add_signed; [apply Hdot, Hv|].
    apply F32Facts.mul_self_signed, Hw.
Qed.

Lemma squared_length_sign_witness :
  let V : @vec F32.float := [f32 (2 ^ 100); f32 (-3)] in
  let q : quat := mk_quat [f32 1; f32 (-2); f32 3] (f32 4) in
  Forall (fun x => F32.is_finite x = true) V /\
  Forall (fun x => F32.is_finite x = true) (qw q :: qv q) /\
  F32.is_nan (vec_dot 2 V V) = false /\ F32.is_nan (quat_dot q q) = false.
Proof.
  intros V q.
  assert (H1 : Forall (fun x => F32.is_finite x = true) V) by (repeat constructor).
  assert (H2 : Forall (fun x => F32.is_finite x = true) (qw q :: qv q))
    by (repeat constructor).
  split; [exact H1|]. split; [exact H2|].
  destruct (@squared_length_sign 2%nat V q H1 H2) as [[E1 _] [E2 _]].
  split; assumption.
Defined.

Lemma neg_involutive (x : F32.float) : F32.neg (F32.neg x) = x.
Proof.
  destruct x as [s|s| |s m e]; simpl; rewrite ?negb_involutive; reflexivity.
Qed.

(** X12. On floats, negating a vector of N components twice, and conjugating
    a quaternion twice, gives back the argument bit for bit. *)
Theorem quat_conj_involutive (N : nat) (V : @vec F32.float) (q : quat) :
  length V = N -> length (qv q) = 3%nat ->
  vec_neg N (vec_neg N V) = V /\ quat_conj (quat_conj q) = q.
Proof.
  assert (Hneg : forall n (U : @vec F32.float),
            length U = n -> vec_neg n (vec_neg n U) = U).
  { intros n U HU. apply vec_ext.
    - rewrite vec_neg_length. symmetry. exact HU.
    - intros j Hj. rewrite vec_neg_length in Hj.
      rewrite !vec_neg_get by exact Hj. apply neg_involutive. }
  intros HV Hq. split; [apply Hneg, HV|].
  destruct q as [v w]. unfold quat_conj. simpl in *.
  rewrite (Hneg 3%nat v Hq). reflexivity.
Qed.

Lemma quat_conj_involutive_witness :
  let V : @vec F32.float := [f32 1; F32.pzero] in
  let q : quat := mk_quat [f32 1; f32 (-2); F32.pzero] (f32 4) in
  length V = 2%nat /\ length (qv q) = 3%nat /\
  quat_conj q = mk_quat [f32 (-1); f32 2; F32.neg F32.pzero] (f32 4) /\
  quat_conj (quat_conj q) = q.
Proof.
  intros V q.
  assert (H1 : length V = 2%nat) by reflexivity.
  assert (H2 : length (qv q) = 3%nat) by reflexivity.
  split; [exact H1|]. split; [exact H2|]. split; [reflexivity|].
  exact (proj2 (@quat_conj_involutive 2%nat V q H1 H2)).
Defined.

(** ** [mat4_from_quat] *)

Lemma mul_neg_neg (a b : F32.float) :
  F32.mul (F32.neg a) (F32.neg b) = F32.mul a b.
Proof.
  rewrite F32Facts.mul_neg_l, F32Facts.mul_neg_r. apply neg_involutive.
Qed.

(** X13. A float quaternion without NaN components and its opposite (every
    component negated) give the same matrix bit for bit; for every float
    quaternion the matrix is 4 x 4, its last column is (0,0,0,1) and the last
    row of the first three columns is 0. *)
Theorem mat4_from_quat_sign (Q : quat) :
  (nan_free_quat Q ->
   mat4_from_quat (mk_quat (vec_neg 3 (qv Q)) (F32.neg (qw Q)))
   = mat4_from_quat Q) /\
  wf_mat 4 4 (mat4_from_quat Q) /\
  mget (mat4_from_quat Q) 3 3 = F32.of_Z 1 /\
  mcol (mat4_from_quat Q) 3 = [F32.pzero; F32.pzero; F32.pzero; F32.of_Z 1] /\
  mget (mat4_from_quat Q) 0 3 = F32.pzero /\
  mget (mat4_from_quat Q) 1 3 = F32.pzero /\
  mget (mat4_from_quat Q) 2 3 = F32.pzero.
Proof.
  split.
  - intros _. unfold mat4_from_quat. cbn [qv qw].
    rewrite !(vec_neg_get (qv Q)) by lia.
    cbv [s_mul s_add s_sub s_neg s_of_int s_zero float_scalar].
    rewrite !mul_neg_neg. reflexivity.
  - split; [split; [reflexivity|repeat constructor]|].
    repeat split.
Qed.

Lemma mat4_from_quat_sign_witness :
  let Q : quat := mk_quat [f32 1; f32 2; f32 3] (f32 4) in
  nan_free_quat Q /\
  mat4_from_quat Q
  = [ [f32 4; f32 28; f32 (-10); F32.pzero];
      [f32 (-20); f32 10; f32 20; F32.pzero];
      [f32 22; f32 4; f32 20; F32.pzero];
      [F32.pzero; F32.pzero; F32.pzero; f32 1] ] /\
  mat4_from_quat (mk_quat [f32 (-1); f32 (-2); f32 (-3)] (f32 (-4)))
  = mat4_from_quat Q.
Proof.
  intros Q.
  assert (HQ : nan_free_quat Q) by (repeat constructor).
  split; [exact HQ|]. split; [reflexivity|].
  exact (proj1 (mat4_from_quat_sign Q) HQ).
Defined.

(** ** Applying the named constructors *)

Module F32Zeros.
Import F32.

Lemma add_pzero_zero (z : float) : is_zero z = true -> add pzero z = pzero.
Proof.
  destruct z as [[|]| | |]; try discriminate; reflexivity.
Qed.

Lemma mul_pzero_l (x : float) :
  is_finite x = true -> is_zero (mul pzero x) = true.
Proof.
  destruct x; try discriminate; reflexivity.
Qed.

Lemma mul_pzero_r (x : float) :
  is_finite x = true -> is_zero (mul x pzero) = true.
Proof.
  destruct x; try discriminate; reflexivity.
Qed.

Lemma mul_zero_finite (z x : float) :
  is_zero z = true -> is_finite x = true -> is_zero (mul z x) = true.
Proof.
  destruct z, x; try discriminate; reflexivity.
Qed.

Lemma add_zeros (a b : float) :
  is_zero a = true -> is_zero b = true -> is_zero (add a b) = true.
Proof.
  destruct a as [[|]| | |], b as [[|]| | |]; try discriminate; reflexivity.
Qed.

Lemma sub_zeros (a b : float) :
  is_zero a = true -> is_zero b = true -> is_zero (sub a b) = true.
Proof.
  destruct a as [[|]| | |], b as [[|]| | |]; try discriminate; reflexivity.
Qed.

Lemma unsigned_add_zero_l (z x : float) :
  is_zero z = true -> unsigned_zero (add z x) = unsigned_zero x.
Proof.
  destruct z as [[|]| | |], x as [[|]|sx| |sx mx ex]; try discriminate; reflexivity.
Qed.

Lemma unsigned_add_zero_r (x z : float) :
  is_zero z = true -> unsigned_zero (add x z) = unsigned_zero x.
Proof.
  destruct z as [[|]| | |], x as [[|]|sx| |sx mx ex]; try discriminate; reflexivity.
Qed.

Lemma unsigned_sub_zero_r (x z : float) :
  is_zero z = true -> unsigned_zero (sub x z) = unsigned_zero x.
Proof.
  destruct z as [[|]| | |], x as [[|]|sx| |sx mx ex]; try discriminate; reflexivity.
Qed.

Lemma unsigned_not_nzero (x : float) :
  x <> S754_zero true -> unsigned_zero x = x.
Proof.
  destruct x as [[|]| | |]; intros Hx; try reflexivity. contradiction Hx.
  reflexivity.
Qed.

Lemma eqb_of_unsigned (a b : float) :
  unsigned_zero a = unsigned_zero b -> is_finite b = true -> eqb a b = true.
Proof.
  destruct a as [sa|sa| |sa ma ea], b as [sb|sb| |sb mb eb];
    simpl; intros E Hb; try discriminate; try reflexivity.
  injection E as -> -> ->.
  apply (@F32Facts.eqb_refl_signed sb). reflexivity.
Qed.

End F32Zeros.

Lemma valid_finite (x : F32.float) : f32_valid x -> F32.is_finite x = true.
Proof. intros [Hx _]. exact Hx. Qed.

(** X14. For finite canonical floats, [mat4_translate(x,y,z)] moves the
    point (a,b,c,1) to (a + x, b + y, c + z, 1), one rounded sum per
    component, and leaves the direction (a,b,c,0) where it is; a -0.0f among
    a, b, c is read as +0.0f.  Every product has a factor 0 or 1 and is
    exact. *)
Theorem mat4_translate_apply (x y z a b c : F32.float) :
  Forall f32_valid [x; y; z; a; b; c] ->
  mat_mul_vec 4 (mat4_translate x y z) [a; b; c; F32.of_Z 1]
  = [ F32.add (unsigned_zero a) x; F32.add (unsigned_zero b) y;
      F32.add (unsigned_zero c) z; F32.of_Z 1 ] /\
  mat_mul_vec 4 (mat4_translate x y z) [a; b; c; F32.pzero]
  = [ unsigned_zero a; unsigned_zero b; unsigned_zero c; F32.pzero ].
Proof.
  intros HV.
  repeat match goal with
         | H : Forall _ (_ :: _) |- _ => inversion H; subst; clear H
         end.
  match goal with
  | Hx : f32_valid x, Hy : f32_valid y, Hz : f32_valid z,
    Ha : f32_valid a, Hb : f32_valid b, Hc : f32_valid c |- _ =>
      pose proof (valid_finite Ha) as Fa; pose proof (valid_finite Hb) as Fb;
      pose proof (valid_finite Hc) as Fc;
      pose proof (valid_finite Hx) as Fx; pose proof (valid_finite Hy) as Fy;
      pose proof (valid_finite Hz) as Fz;
      assert (Hgen : forall d', f32_valid d' ->
        mat_mul_vec 4 (mat4_translate x y z) [a; b; c; d']
        = [ F32.add (unsigned_zero a) (F32.mul x d');
            F32.add (unsigned_zero b) (F32.mul y d');
            F32.add (unsigned_zero c) (F32.mul z d');
            unsigned_zero d' ])
  end.
  { intros d' Hd'.
    cbv -[F32.add F32.mul F32.of_Z unsigned_zero].
    change (S754_zero false) with F32.pzero.
    rewrite !F32Units.mul_one_l by assumption.
    repeat first
      [ rewrite (F32Zeros.add_pzero_zero _ (F32Units.mul_zero_l _ Fa))
      | rewrite (F32Zeros.add_pzero_zero _ (F32Units.mul_zero_l _ Fb))
      | rewrite (F32Zeros.add_pzero_zero _ (F32Units.mul_zero_l _ Fc)) ].
    rewrite !F32Units.add_pzero_l_any.
    rewrite ?(F32Units.add_zero_r _ _ (F32Units.mul_zero_l _ Fb)),
            ?(F32Units.add_zero_r _ _ (F32Units.mul_zero_l _ Fc)).
    reflexivity. }
  split.
  - rewrite Hgen by (split; reflexivity).
    rewrite !F32Units.mul_one_r by assumption. reflexivity.
  - rewrite Hgen by (split; reflexivity).
    rewrite !(F32Units.add_zero_r _ _ (F32Zeros.mul_pzero_r _ Fx)).
    rewrite !(F32Units.add_zero_r _ _ (F32Zeros.mul_pzero_r _ Fy)).
    rewrite !(F32Units.add_zero_r _ _ (F32Zeros.mul_pzero_r _ Fz)).
    reflexivity.
Qed.

Lemma mat4_translate_apply_witness :
  let h := F32.of_dec 5 (-1) in
  Forall f32_valid [f32 1; f32 2; f32 3; h; F32.neg F32.pzero; f32 (-7)] /\
  mat_mul_vec 4 (mat4_translate (f32 1) (f32 2) (f32 3))
    [h; F32.neg F32.pzero; f32 (-7); F32.of_Z 1]
  = [F32.of_dec 15 (-1); f32 2; f32 (-4); f32 1] /\
  mat_mul_vec 4 (mat4_translate (f32 1) (f32 2) (f32 3))
    [h; F32.neg F32.pzero; f32 (-7); F32.pzero]
  = [h; F32.pzero; f32 (-7); F32.pzero].
Proof.
  intros h.
  assert (HV : Forall f32_valid
                 [f32 1; f32 2; f32 3; h; F32.neg F32.pzero; f32 (-7)])
    by (repeat constructor).
  split; [exact HV|].
  split; [exact (proj1 (mat4_translate_apply HV))
         |exact (proj2 (mat4_translate_apply HV))].
Defined.



(** ** Measuring the capability level *)

Lemma bit_set_testbit (x k : Z) :
  0 <= k -> Detect.bit_set x k = true -> Z.testbit x k = true.
Proof.
  intros Hk. unfold Detect.bit_set. rewrite Z.shiftl_1_l.
  destruct (Z.testbit x k) eqn:E; [reflexivity|].
  intros Hb. exfalso.
  assert (Hz : Z.land x (2 ^ k) = 0).
  { apply Z.bits_inj'. intros n Hn.
    rewrite Z.land_spec, Z.bits_0, (Z.pow2_bits_eqb k n Hk).
    destruct (Z.eqb_spec k n) as [->|]; [rewrite E|]; simpl;
      [reflexivity|apply andb_false_r]. }
  rewrite Hz in Hb. discriminate.
Qed.

Lemma land6_bits (x : Z) :
  (Z.land x 6 =? 6) = true -> Z.testbit x 1 = true /\ Z.testbit x 2 = true.
Proof.
  intros E. apply Z.eqb_eq in E.
  pose proof (f_equal (fun v => Z.testbit v 1) E) as E1.
  pose proof (f_equal (fun v => Z.testbit v 2) E) as E2.
  cbv beta in E1, E2. rewrite Z.land_spec in E1, E2.
  change (Z.testbit 6 1) with true in E1.
  change (Z.testbit 6 2) with true in E2.
  rewrite andb_true_r in E1, E2. split; assumption.
Qed.

(** X17. What [runtime_level] reports is backed by the hardware and the
    operating system: avx or avx2 only on x86 with the AVX and OSXSAVE bits of
    CPUID leaf 1 and bits 1 and 2 of XCR0 set; avx2 only when compiled with
    __AVX2__ and with bit 5 of EBX of leaf 7 set; sse2 only with bit 26 of EDX
    set; neon never on x86. *)
Theorem runtime_level_sound (m : Detect.macros) (c : Detect.cpu) :
  let l := Detect.runtime_level m c in
  (l = Simd.avx \/ l = Simd.avx2 ->
     Detect.x86 m = true /\
     Z.testbit (Detect.leaf1_ecx c) 28 = true /\
     Z.testbit (Detect.leaf1_ecx c) 27 = true /\
     Z.testbit (Detect.xcr0 c) 1 = true /\
     Z.testbit (Detect.xcr0 c) 2 = true) /\
  (l = Simd.avx2 ->
     Detect.def_AVX2 m = true /\ Z.testbit (Detect.leaf7_ebx c) 5 = true) /\
  (l = Simd.sse2 ->
     Detect.x86 m = true /\ Z.testbit (Detect.leaf1_edx c) 26 = true) /\
  (l = Simd.neon -> Detect.x86 m = false /\ Detect.arm m = true).
Proof.
  assert (Hfin : forall l0 : Simd.level, forall P1 P2 P3 P4 : Prop,
            (l0 = Simd.avx \/ l0 = Simd.avx2 -> P1) ->
            (l0 = Simd.avx2 -> P2) -> (l0 = Simd.sse2 -> P3) ->
            (l0 = Simd.neon -> P4) ->
            (l0 = Simd.avx \/ l0 = Simd.avx2 -> P1) /\ (l0 = Simd.avx2 -> P2) /\
            (l0 = Simd.sse2 -> P3) /\ (l0 = Simd.neon -> P4))
    by (intros; repeat split; assumption).
  unfold Detect.runtime_level.
  destruct (Detect.x86 m) eqn:Ex.
  - destruct ((Detect.def_AVX m || Detect.def_MSC_VER m)
              && (Detect.bit_set (Detect.leaf1_ecx c) 28
                  && Detect.bit_set (Detect.leaf1_ecx c) 27)
              && (Z.land (Detect.xcr0 c) 6 =? 6)) eqn:Eavx.
    + apply andb_prop in Eavx. destruct Eavx as [Eavx Ex0].
      apply andb_prop in Eavx. destruct Eavx as [_ Ebits].
      apply andb_prop in Ebits. destruct Ebits as [E28 E27].
      apply bit_set_testbit in E28; [|lia].
      apply bit_set_testbit in E27; [|lia].
      destruct (land6_bits _ Ex0) as [B1 B2].
      destruct (Detect.def_AVX2 m && Detect.bit_set (Detect.leaf7_ebx c) 5) eqn:E2.
      * apply andb_prop in E2. destruct E2 as [Ed E5].
        apply bit_set_testbit in E5; [|lia].
        apply Hfin; intros Hl; try discriminate Hl; repeat split; assumption.
      * apply Hfin; intros Hl; try discriminate Hl; repeat split; assumption.
    + destruct ((Detect.def_SSE2 m || Detect.def_MSC_VER m)
                && Detect.bit_set (Detect.leaf1_edx c) 26) eqn:Esse.
      * apply andb_prop in Esse. destruct Esse as [_ E26].
        apply bit_set_testbit in E26; [|lia].
        apply Hfin; intros Hl; try discriminate Hl;
          try (destruct Hl as [Hl|Hl]; discriminate Hl);
          repeat split; assumption.
      * apply Hfin; intros Hl; try discriminate Hl;
          destruct Hl as [Hl|Hl]; discriminate Hl.
  - destruct (Detect.arm m) eqn:Ea;
      apply Hfin; intros Hl; try discriminate Hl;
      try (destruct Hl as [Hl|Hl]; discriminate Hl);
      repeat split; reflexivity.
Qed.

(** ** The trigonometric approximations without range reduction *)

Lemma tanf_in_range (fuel : nat) (X : F32.float) :
  F32.gtb X Libc.PI = false -> F32.ltb X (F32.neg Libc.PI) = false ->
  Libc.tanf (S fuel) X = Libc.tanf 1 X.
Proof.
  intros Hdown Hup.
  unfold Libc.tanf, Libc.tanf_reduce_down.
  rewrite !(@while_skip _ (fun Y => F32.gtb Y Libc.PI) _ X Hdown).
  cbn [obind]. unfold Libc.tanf_reduce_up.
  rewrite !(@while_skip _ (fun Y => F32.ltb Y (F32.neg Libc.PI)) _ X Hup).
  reflexivity.
Qed.

(** X18. For X with neither X >= PI_DOUBLE nor X < 0 (in particular NaN),
    [sinf] returns after one test of each loop condition, and so does [tanf]
    for Y with neither Y > PI nor Y < -PI: any positive fuel gives the result
    of fuel 1. *)
Theorem trig_returns_in_range (fuel : nat) (X Y : F32.float) :
  F32.geb X Libc.PI_DOUBLE = false -> F32.ltb X F32.pzero = false ->
  F32.gtb Y Libc.PI = false -> F32.ltb Y (F32.neg Libc.PI) = false ->
  (exists r, Libc.sinf (S fuel) X = Some r /\ Libc.sinf 1 X = Some r) /\
  (exists r, Libc.tanf (S fuel) Y = Some r /\ Libc.tanf 1 Y = Some r).
Proof.
  intros HX1 HX2 HY1 HY2. split.
  - rewrite (sinf_in_range fuel X HX1 HX2).
    unfold Libc.sinf, Libc.sinf_reduce_down.
    rewrite (@while_skip _ (fun Z => F32.geb Z Libc.PI_DOUBLE) _ X HX1).
    cbn [obind]. unfold Libc.sinf_reduce_up.
    rewrite (@while_skip _ (fun Z => F32.ltb Z F32.pzero) _ X HX2).
    cbn [obind].
    destruct (F32.gtb X Libc.PI); eexists; split; reflexivity.
  - rewrite (tanf_in_range fuel Y HY1 HY2).
    unfold Libc.tanf, Libc.tanf_reduce_down.
    rewrite (@while_skip _ (fun Z => F32.gtb Z Libc.PI) _ Y HY1).
    cbn [obind]. unfold Libc.tanf_reduce_up.
    rewrite (@while_skip _ (fun Z => F32.ltb Z (F32.neg Libc.PI)) _ Y HY2).
    cbn [obind]. eexists; split; reflexivity.
Qed.

Lemma trig_returns_in_range_witness :
  F32.geb (f32 1) Libc.PI_DOUBLE = false /\ F32.ltb (f32 1) F32.pzero = false /\
  F32.gtb S754_nan Libc.PI = false /\ F32.ltb S754_nan (F32.neg Libc.PI) = false /\
  (exists r, Libc.sinf 5 (f32 1) = Some r) /\
  Libc.tanf 5 S754_nan = Some S754_nan.
Proof.
  assert (H1 : F32.geb (f32 1) Libc.PI_DOUBLE = false) by (vm_compute; reflexivity).
  assert (H2 : F32.ltb (f32 1) F32.pzero = false) by (vm_compute; reflexivity).
  assert (H3 : F32.gtb S754_nan Libc.PI = false) by (vm_compute; reflexivity).
  assert (H4 : F32.ltb S754_nan (F32.neg Libc.PI) = false) by (vm_compute; reflexivity).
  repeat (split; [assumption|]).
  destruct (@trig_returns_in_range 4%nat (f32 1) S754_nan H1 H2 H3 H4)
    as [[r [Hr _]] [t [Ht Ht1]]].
  split.
  - exists r. exact Hr.
  - rewrite Ht, <- Ht1. vm_compute. reflexivity.
Defined.

(** ** The identity quaternion is neutral, up to the sign of zero *)

Lemma zero_is_finite (z : F32.float) :
  is_zero z = true -> F32.is_finite z = true.
Proof. destruct z; try discriminate; reflexivity. Qed.

Ltac zero_tac :=
  lazymatch goal with
  | |- is_zero (F32.mul (S754_zero false) ?x) = true =>
      apply F32Zeros.mul_pzero_l; fin_tac
  | |- is_zero (F32.mul ?x (S754_zero false)) = true =>
      apply F32Zeros.mul_pzero_r; fin_tac
  | |- is_zero (F32.mul ?z ?x) = true =>
      apply F32Zeros.mul_zero_finite; [zero_tac | fin_tac]
  | |- is_zero (F32.sub _ _) = true => apply F32Zeros.sub_zeros; zero_tac
  | |- is_zero (F32.add _ _) = true => apply F32Zeros.add_zeros; zero_tac
  | |- is_zero (S754_zero _) = true => reflexivity
  end
with fin_tac :=
  first [ assumption | reflexivity | apply zero_is_finite; zero_tac ].

Ltac unsigned_tac :=
  repeat first
    [ rewrite F32Zeros.unsigned_add_zero_r by zero_tac
    | rewrite F32Zeros.unsigned_add_zero_l by zero_tac
    | rewrite F32Zeros.unsigned_sub_zero_r by zero_tac
    | rewrite F32Units.mul_one_r by assumption
    | rewrite F32Units.mul_one_l by assumption ];
  reflexivity.

Ltac eqb_tac :=
  repeat (apply andb_true_intro; split);
  try reflexivity;
  (apply F32Zeros.eqb_of_unsigned; [unsigned_tac | assumption]).

(** X19. For a float quaternion q of finite canonical components, q times
    the identity quaternion and the identity times q both equal q up to the
    sign of zero components, and compare equal to q under operator==. *)
Theorem quat_mul_identity (q : quat) :
  length (qv q) = 3%nat -> Forall f32_valid (qw q :: qv q) ->
  (map unsigned_zero (qv (quat_mul q quat_identity)) = map unsigned_zero (qv q) /\
   unsigned_zero (qw (quat_mul q quat_identity)) = unsigned_zero (qw q) /\
   quat_eqb (quat_mul q quat_identity) q = true) /\
  (map unsigned_zero (qv (quat_mul quat_identity q)) = map unsigned_zero (qv q) /\
   unsigned_zero (qw (quat_mul quat_identity q)) = unsigned_zero (qw q) /\
   quat_eqb (quat_mul quat_identity q) q = true).
Proof.
  destruct q as [v w].
  destruct v as [|v0 [|v1 [|v2 [|? ?]]]]; try discriminate. intros _ HV.
  cbn [qv qw] in HV.
  repeat match goal with
         | H : Forall _ (_ :: _) |- _ => inversion H; subst; clear H
         end.
  match goal with
  | Hw : f32_valid w, H0 : f32_valid v0, H1 : f32_valid v1, H2 : f32_valid v2 |- _ =>
      pose proof (valid_finite Hw) as Fw; pose proof (valid_finite H0) as F0;
      pose proof (valid_finite H1) as F1; pose proof (valid_finite H2) as F2
  end.
  cbv -[F32.add F32.sub F32.mul F32.of_Z F32.eqb unsigned_zero andb].
  repeat split.
  - f_equal; [unsigned_tac|]. f_equal; [unsigned_tac|]. f_equal. unsigned_tac.
  - unsigned_tac.
  - eqb_tac.
  - f_equal; [unsigned_tac|]. f_equal; [unsigned_tac|]. f_equal. unsigned_tac.
  - unsigned_tac.
  - eqb_tac.
Qed.

Lemma quat_mul_identity_witness :
  let q : quat := mk_quat [f32 1; F32.neg F32.pzero; f32 3] (f32 4) in
  length (qv q) = 3%nat /\ Forall f32_valid (qw q :: qv q) /\
  quat_eqb (quat_mul q quat_identity) q = true /\
  quat_eqb (quat_mul quat_identity q) q = true.
Proof.
  intros q.
  assert (H1 : length (qv q) = 3%nat) by reflexivity.
  assert (H2 : Forall f32_valid (qw q :: qv q)) by (repeat constructor).
  split; [exact H1|]. split; [exact H2|].
  destruct (quat_mul_identity q H1 H2) as [(_ & _ & E1) (_ & _ & E2)].
  split; assumption.
Defined.

(** X20. Rotating a float vector of finite canonical components by the
    identity quaternion returns it up to the sign of zero components, equal
    under operator==. *)
Theorem quat_mul_vec3_identity (V : vec3) :
  length V = 3%nat -> Forall f32_valid V ->
  map unsigned_zero (quat_mul_vec3 quat_identity V) = map unsigned_zero V /\
  vec_eqb 3 (quat_mul_vec3 quat_identity V) V = true.
Proof.
  destruct V as [|a [|b [|c [|? ?]]]]; try discriminate. intros _ HV.
  repeat match goal with
         | H : Forall _ (_ :: _) |- _ => inversion H; subst; clear H
         end.
  match goal with
  | Ha : f32_valid a, Hb : f32_valid b, Hc : f32_valid c |- _ =>
      pose proof (valid_finite Ha) as Fa; pose proof (valid_finite Hb) as Fb;
      pose proof (valid_finite Hc) as Fc
  end.
  cbv -[F32.add F32.sub F32.mul F32.of_Z F32.eqb unsigned_zero andb].
  split.
  - f_equal; [unsigned_tac|]. f_equal; [unsigned_tac|]. f_equal. unsigned_tac.
  - eqb_tac.
Qed.

Lemma quat_mul_vec3_identity_witness :
  let V : vec3 := [f32 1; F32.neg F32.pzero; F32.of_dec 7 (-1)] in
  length V = 3%nat /\ Forall f32_valid V /\
  vec_eqb 3 (quat_mul_vec3 quat_identity V) V = true.
Proof.
  intros V.
  assert (H1 : length V = 3%nat) by reflexivity.
  assert (H2 : Forall f32_valid V) by (repeat constructor).
  split; [exact H1|]. split; [exact H2|].
  exact (proj2 (quat_mul_vec3_identity H1 H2)).
Defined.

(** ** Sums, differences and scalings of vectors, matrices, quaternions *)

Lemma vec_sub_diag (n : nat) (U : @vec F32.float) :
  length U = n -> Forall (fun x => F32.is_finite x = true) U ->
  vec_sub n U U = vec_init n.
Proof.
  intros Hlen HU. apply vec_ext.
  - rewrite vec_sub_length, vec_init_length. reflexivity.
  - intros j Hj. rewrite vec_sub_length in Hj.
    rewrite (vec_sub_get U U Hj), vget_vec_init.
    apply F32Facts.sub_diag, finite_vget, HU.
Qed.

Lemma vec_scale_unit (n : nat) (U : @vec F32.float) :
  length U = n -> Forall f32_valid U -> vec_scale n U (F32.of_Z 1) = U.
Proof.
  intros Hlen HU. apply vec_ext.
  - rewrite vec_scale_length. symmetry. exact Hlen.
  - intros j Hj. rewrite vec_scale_length in Hj.
    rewrite (vec_scale_get U (F32.of_Z 1) Hj).
    apply F32Units.mul_one_r, (valid_vget HU). lia.
Qed.

Lemma valid_all_finite (U : @vec F32.float) :
  Forall f32_valid U -> Forall (fun x => F32.is_finite x = true) U.
Proof.
  intros HU. eapply Forall_impl; [|exact HU]. intros x [Hx _]. exact Hx.
Qed.

(** X21. For finite canonical floats, scaling a vector or a quaternion by 1,
    and dividing a vector by 1, return the argument bit for bit; a quaternion
    minus itself is the zero quaternion. *)
Theorem scale_by_one (N : nat) (V : @vec F32.float) (q : quat) :
  length V = N -> Forall f32_valid V ->
  length (qv q) = 3%nat -> Forall f32_valid (qw q :: qv q) ->
  vec_scale N V (F32.of_Z 1) = V /\
  vec_div N V (F32.of_Z 1) = V /\
  quat_scale q (F32.of_Z 1) = q /\
  quat_sub q q = quat_init.
Proof.
  intros HlV HV Hlq Hq.
  pose proof (Forall_inv Hq) as Hw. pose proof (Forall_inv_tail Hq) as Hv.
  repeat split.
  - apply vec_scale_unit; assumption.
  - unfold vec_div.
    change (s_div (s_of_int 1) (F32.of_Z 1)) with (F32.of_Z 1).
    apply vec_scale_unit; assumption.
  - destruct q as [v w]. unfold quat_scale. cbn [qv qw] in *.
    rewrite (vec_scale_unit Hlq Hv).
    change (s_mul w (F32.of_Z 1)) with (F32.mul w (F32.of_Z 1)).
    rewrite (F32Units.mul_one_r Hw). reflexivity.
  - destruct q as [v w]. unfold quat_sub, quat_init. cbn [qv qw] in *.
    rewrite (vec_sub_diag Hlq (valid_all_finite Hv)).
    change (s_sub w w) with (F32.sub w w).
    rewrite (F32Facts.sub_diag w (valid_finite Hw)). reflexivity.
Qed.

Lemma scale_by_one_witness :
  let V : @vec F32.float := [f32 3; F32.of_dec 7 (-1)] in
  let q : quat := mk_quat [f32 1; F32.neg F32.pzero; f32 3] (f32 4) in
  length V = 2%nat /\ Forall f32_valid V /\
  length (qv q) = 3%nat /\ Forall f32_valid (qw q :: qv q) /\
  vec_div 2 V (F32.of_Z 1) = V /\ quat_scale q (F32.of_Z 1) = q.
Proof.
  intros V q.
  assert (H1 : length V = 2%nat) by reflexivity.
  assert (H2 : Forall f32_valid V) by (repeat constructor).
  assert (H3 : length (qv q) = 3%nat) by reflexivity.
  assert (H4 : Forall f32_valid (qw q :: qv q)) by (repeat constructor).
  repeat (split; [assumption|]).
  destruct (@scale_by_one 2%nat V q H1 H2 H3 H4) as (_ & E1 & E2 & _).
  split; assumption.
Defined.

Section MatColumns.
Context {T : Type} `{Scalar T}.

(** A loop that stores the column [g c] at index [c]. *)
Lemma mat_cols_fill (C R : nat) (g : nat -> @vec T) :
  (forall c, (c < C)%nat -> length (g c) = R) ->
  wf_mat C R (for_ C (fun c M => mset_col M c (g c)) (mat_init C R)) /\
  forall c, (c < C)%nat ->
    mcol (for_ C (fun c M => mset_col M c (g c)) (mat_init C R)) c = g c.
Proof.
  intros Hg.
  apply for_ind with
    (P := fun n M => wf_mat C R M /\
            forall c, (c < n)%nat -> mcol M c = g c).
  - split; [apply wf_mat_init|]. intros c Hc. lia.
  - intros i acc Hi [Hwf Hcols]. split.
    + apply wf_mset_col; [exact Hwf|apply Hg, Hi].
    + intros c Hc. rewrite mcol_mset_col by (apply (wf_mat_lt Hwf Hi)).
      destruct (Nat.eqb_spec c i) as [->|Hne]; [reflexivity|].
      apply Hcols. lia.
Qed.

End MatColumns.

(** X22. For float matrices M and A without NaN entries, [mat_add C R M A]
    and [mat_add C R A M] are the same matrix bit for bit; for a C x R matrix
    M of finite canonical entries, M minus itself is the zero matrix and M
    scaled by 1 is M. *)
Theorem mat_linear_ops (C R : nat) (M A : @mat F32.float) :
  (nan_free_mat M -> nan_free_mat A ->
   mat_add C R M A = mat_add C R A M) /\
  (wf_mat C R M -> Forall (Forall f32_valid) M ->
   mat_sub C R M M = mat_init C R /\
   mat_scale C R M (F32.of_Z 1) = M).
Proof.
  split.
  { intros _ _. unfold mat_add. apply for_ext. intros c acc _.
    rewrite (vec_add_comm R (mcol M c) (mcol A c)). reflexivity. }
  intros HM HV.
  assert (Hcol : forall c, (c < C)%nat ->
            length (mcol M c) = R /\ Forall f32_valid (mcol M c)).
  { intros c Hc. split; [apply (wf_mcol HM Hc)|].
    unfold mcol.
    apply (proj1 (Forall_nth (Forall f32_valid) M) HV c [] (wf_mat_lt HM Hc)). }
  split.
  - unfold mat_sub.
    apply (mat_ext (C := C) (R := R)).
    + apply (mat_cols_fill (fun c => vec_sub R (mcol M c) (mcol M c))).
      intros c _. apply vec_sub_length.
    + apply wf_mat_init.
    + intros c r Hc Hr. rewrite mget_mat_init. unfold mget at 1.
      rewrite (proj2 (mat_cols_fill (R := R)
                 (fun c => vec_sub R (mcol M c) (mcol M c))
                 (fun c _ => vec_sub_length R _ _)) c Hc).
      destruct (Hcol c Hc) as [Hl Hv].
      rewrite (vec_sub_diag Hl (valid_all_finite Hv)). apply vget_vec_init.
  - unfold mat_scale.
    apply (mat_ext (C := C) (R := R)).
    + apply (mat_cols_fill (fun c => vec_scale R (mcol M c) (F32.of_Z 1))).
      intros c _. apply vec_scale_length.
    + exact HM.
    + intros c r Hc Hr. unfold mget at 1.
      rewrite (proj2 (mat_cols_fill (R := R)
                 (fun c => vec_scale R (mcol M c) (F32.of_Z 1))
                 (fun c _ => vec_scale_length R _ _)) c Hc).
      destruct (Hcol c Hc) as [Hl Hv].
      rewrite (vec_scale_unit Hl Hv). reflexivity.
Qed.

Lemma mat_linear_ops_witness :
  let M : @mat F32.float := [[f32 1; f32 2]; [F32.neg F32.pzero; f32 4]] in
  let A : @mat F32.float := [[f32 5; f32 6]; [S754_infinity false; f32 8]] in
  wf_mat 2 2 M /\ Forall (Forall f32_valid) M /\
  nan_free_mat M /\ nan_free_mat A /\
  mat_add 2 2 M A = [[f32 6; f32 8]; [S754_infinity false; f32 12]] /\
  mat_add 2 2 M A = mat_add 2 2 A M /\
  mat_sub 2 2 M M = [[F32.pzero; F32.pzero]; [F32.pzero; F32.pzero]] /\
  mat_scale 2 2 M (F32.of_Z 1) = M.
Proof.
  intros M A.
  assert (H1 : wf_mat 2 2 M) by (split; [reflexivity|repeat constructor]).
  assert (H2 : Forall (Forall f32_valid) M) by (repeat constructor).
  assert (H3 : nan_free_mat M) by (repeat constructor).
  assert (H4 : nan_free_mat A) by (repeat constructor).
  destruct (@mat_linear_ops 2%nat 2%nat M A) as [EA EM].
  destruct (EM H1 H2) as [E1 E2].
  split; [exact H1|]. split; [exact H2|]. split; [exact H3|].
  split; [exact H4|]. split; [reflexivity|]. split; [exact (EA H3 H4)|].
  split; [exact (eq_trans E1 eq_refl)|exact E2].
Defined.
